(** * GtkSymbolCheck: the symbol-version database and the compliance check

    A shallow embedding of [GtkSymbolCheck.py]: the [GtkSymbol] record with
    its three-way [check_version], the construction of the symbol database
    in [GtkSymbolListing.get_symbols] (an ascending introduction pass and a
    descending deprecation pass over the documented GTK 3 releases) and
    [GtkSymbolListing.check_available_symbol].

    Python integers are unbounded, so version components are [Z].  A
    Python [dict] keyed by strings is a [gmap string _]; the listings stay
    Python lists, since a name may occur several times in one document. *)

From Equations Require Import Equations.
From stdpp Require Import gmap strings list pretty.
From Stdlib Require Import ZArith Lia Sorted Ascii.

Local Open Scope Z_scope.

(** ** Versions *)

(** A version is the tuple [(major, minor)]. *)
Definition version : Type := Z * Z.

(** Python's tuple comparison on versions: lexicographic. *)
Definition version_lt (a b : version) : Prop :=
  a.1 < b.1 ∨ (a.1 = b.1 ∧ a.2 < b.2).

Definition version_le (a b : version) : Prop :=
  a.1 < b.1 ∨ (a.1 = b.1 ∧ a.2 <= b.2).

(** ** class GtkSymbol *)

Record GtkSymbol : Type := mkGtkSymbol {
  symbol_name : string;
  minimum_gtk_version : version;
  maximum_gtk_version : version
}.

(** [GtkSymbol.check_version]: [-1] when the symbol is too new for the
    requested version, [1] when it is too old, [0] when it is just right. *)
Definition check_version (self : GtkSymbol) (major_version minor_version : Z) : Z :=
  let '(major, minor) := minimum_gtk_version self in
  if bool_decide (major > major_version) ||
     (bool_decide (major = major_version) && bool_decide (minor > minor_version))
  then -1
  else
    let '(major, minor) := maximum_gtk_version self in
    if bool_decide (major < major_version) || bool_decide (minor < minor_version)
    then 1
    else 0.

Definition get_min (self : GtkSymbol) : version := minimum_gtk_version self.
Definition get_max (self : GtkSymbol) : version := maximum_gtk_version self.

(** The assignment [symbol.maximum_gtk_version = v] on a stored record. *)
Definition set_maximum_gtk_version (v : version) (self : GtkSymbol) : GtkSymbol :=
  mkGtkSymbol (symbol_name self) (minimum_gtk_version self) v.

(** ** class GtkSymbolListing *)

(** [os.path.join] on two components (POSIX): an absolute second component
    replaces the first; otherwise the two are joined by one separator,
    which is not added when the first is empty or already ends in one. *)
Definition path_join (a b : string) : string :=
  if String.prefix "/" b then b
  else if bool_decide (a = "") || String.prefix "/" (String.rev a)
       then a +:+ b
       else a +:+ "/" +:+ b.

(** What [path_join a b] puts before a relative [b]: [a], followed by a
    separator unless [a] is empty or ends in one. *)
Definition with_separator (a : string) : string :=
  if bool_decide (a = "") || String.prefix "/" (String.rev a) then a else a +:+ "/".

(** The format ["%i.%i" % (version_major, version_minor)]. *)
Definition version_key (version_major version_minor : Z) : string :=
  pretty version_major +:+ "." +:+ pretty version_minor.

(** [str] of a version tuple, as printed in the reports. *)
Definition str_version (v : version) : string :=
  "(" +:+ pretty v.1 +:+ ", " +:+ pretty v.2 +:+ ")".

Section GtkSymbolListing.

(** The working directory of the process ([self.source_dir]). *)
Variable source_dir : string.

(** The two scrapers read a fetched document and return the names found
    in it: [parse_symbol_html] the names of a flat index,
    [parse_object_html] the pair [(available_objects, deprecated_objects)]
    of the object index.  The database is built from what they return;
    the documents of the seven releases are taken to be on disk. *)
Variable parse_symbol_html : string → list string.
Variable parse_object_html : string → list string * list string.

(** The module global [gtk_major_version]: [3] unless [--gtk_version]
    has rebound it before the listing is constructed. *)
Variable gtk_major_version : Z.

(** [os.path.join(self.source_dir, "developer.gnome.org/gtk3/%s/%s" %
    (version_key, name))]. *)
Definition document (version_key name : string) : string :=
  path_join source_dir
    ("developer.gnome.org/gtk3/" +:+ version_key +:+ "/" +:+ name).

(** The loop of [get_available_symbols]:
    [while version_minor <= 12: ...; version_minor += 2]. *)
Equations? get_available_symbols_loop (version_major version_minor : Z)
    (symbol_dict : gmap string (list string)) : gmap string (list string)
  by wf (Z.to_nat (13 - version_minor)) lt :=
  get_available_symbols_loop version_major version_minor symbol_dict
    with decide (version_minor <= 12) => {
    | left _ =>
        let version_key := version_key version_major version_minor in
        let symbol_dict :=
          <[version_key :=
              parse_symbol_html (document version_key "api-index-full.html")
              ++ (parse_object_html (document version_key "gtkobjects.html")).1]>
            symbol_dict in
        get_available_symbols_loop version_major (version_minor + 2) symbol_dict;
    | right _ => symbol_dict }.
Proof. lia. Qed.

Definition get_available_symbols : gmap string (list string) :=
  get_available_symbols_loop 3 0 ∅.

(** The loop of [get_deprecated_symbols]. *)
Equations? get_deprecated_symbols_loop (version_major version_minor : Z)
    (symbol_dict : gmap string (list string)) : gmap string (list string)
  by wf (Z.to_nat (13 - version_minor)) lt :=
  get_deprecated_symbols_loop version_major version_minor symbol_dict
    with decide (version_minor <= 12) => {
    | left _ =>
        let version_key := version_key version_major version_minor in
        let symbol_dict :=
          <[version_key :=
              parse_symbol_html (document version_key "api-index-deprecated.html")
              ++ (parse_object_html (document version_key "gtkobjects.html")).2]>
            symbol_dict in
        get_deprecated_symbols_loop version_major (version_minor + 2) symbol_dict;
    | right _ => symbol_dict }.
Proof. lia. Qed.

Definition get_deprecated_symbols : gmap string (list string) :=
  get_deprecated_symbols_loop 3 0 ∅.

(** *** get_symbols *)

(** Body of the inner [for] of the introduction pass:
    [if symbol not in list(symbols.keys()): symbols[symbol] = GtkSymbol(...)]. *)
Definition introduce (version_major version_minor : Z)
    (symbols : gmap string GtkSymbol) (symbol : string) : gmap string GtkSymbol :=
  if bool_decide (symbol ∉ (map_to_list symbols).*1)
  then <[symbol := mkGtkSymbol symbol (version_major, version_minor) (3, 12)]> symbols
  else symbols.

(** Body of the inner [for] of the deprecation pass: a known symbol has
    its [maximum_gtk_version] reassigned, an unknown one gets a record
    that starts at [(gtk_major_version, 0)]. *)
Definition deprecate (version_major version_minor : Z)
    (symbols : gmap string GtkSymbol) (symbol : string) : gmap string GtkSymbol :=
  if bool_decide (symbol ∈ (map_to_list symbols).*1)
  then alter (set_maximum_gtk_version (version_major, version_minor)) symbol symbols
  else <[symbol := mkGtkSymbol symbol (gtk_major_version, 0)
                     (version_major, version_minor)]> symbols.

(** First [while] of [get_symbols], oldest release first.  [None] is the
    [KeyError] of [available[version_key]]. *)
Equations? introduction_loop (available : gmap string (list string))
    (version_major version_minor : Z) (symbols : gmap string GtkSymbol)
    : option (gmap string GtkSymbol)
  by wf (Z.to_nat (13 - version_minor)) lt :=
  introduction_loop available version_major version_minor symbols
    with decide (version_minor <= 12) => {
    | left _ =>
        match available !! version_key version_major version_minor with
        | Some listing =>
            introduction_loop available version_major (version_minor + 2)
              (foldl (introduce version_major version_minor) symbols listing)
        | None => None
        end;
    | right _ => Some symbols }.
Proof. lia. Qed.

(** Second [while] of [get_symbols], newest release first:
    [while version_minor <= 12 and version_minor >= 0: ...; version_minor -= 2]. *)
Equations? deprecation_loop (deprecated : gmap string (list string))
    (version_major version_minor : Z) (symbols : gmap string GtkSymbol)
    : option (gmap string GtkSymbol)
  by wf (Z.to_nat (version_minor + 2)) lt :=
  deprecation_loop deprecated version_major version_minor symbols
    with decide (version_minor <= 12 ∧ version_minor >= 0) => {
    | left _ =>
        match deprecated !! version_key version_major version_minor with
        | Some listing =>
            deprecation_loop deprecated version_major (version_minor - 2)
              (foldl (deprecate version_major version_minor) symbols listing)
        | None => None
        end;
    | right _ => Some symbols }.
Proof. lia. Qed.

(** The database as the introduction pass leaves it. *)
Definition introduction_pass : option (gmap string GtkSymbol) :=
  introduction_loop get_available_symbols 3 0 ∅.

Definition get_symbols : option (gmap string GtkSymbol) :=
  symbols ← introduction_pass;
  deprecation_loop get_deprecated_symbols 3 12 symbols.

End GtkSymbolListing.

(** *** check_available_symbol *)

(** [check_available_symbol] prints at most one line and returns a
    boolean; the result here is the pair of the lines printed and the
    value returned.  [symbols] is [self.symbols], [hide_not_found] the
    module global.  The [except] branch is the [KeyError] of
    [self.symbols[symbol_name]]. *)
Definition check_available_symbol (symbols : gmap string GtkSymbol)
    (hide_not_found : bool) (symbol_name : string)
    (major_version minor_version : Z) : list string * bool :=
  match symbols !! symbol_name with
  | Some symbol =>
      let result := check_version symbol major_version minor_version in
      if bool_decide (result = -1) then
        (["Symbol [" +:+ symbol_name +:+ "] was introduced in GTK "
            +:+ str_version (get_min symbol)], false)
      else if bool_decide (result = 1) then
        (["Symbol [" +:+ symbol_name +:+ "] has been deprecated since GTK "
            +:+ str_version (get_max symbol)], false)
      else ([], true)
  | None =>
      if hide_not_found then ([], false)
      else (["Symbol [" +:+ symbol_name
               +:+ "] was not found in the API documents"], false)
  end.

(** ** The releases the loops visit *)

(** The minor versions of the documented series, 3.0 to 3.12. *)
Definition known_minors : list Z := [0; 2; 4; 6; 8; 10; 12].

(** [v] is the oldest release whose listing names [s]; no release's
    listing names [s]. *)
Definition earliest (listing : Z → list string) (s : string) (v : Z) : Prop :=
  v ∈ known_minors ∧ s ∈ listing v
  ∧ ∀ v', v' ∈ known_minors → s ∈ listing v' → v <= v'.

Definition unlisted (listing : Z → list string) (s : string) : Prop :=
  ∀ v, v ∈ known_minors → s ∉ listing v.

Section Listings.

Context (source_dir : string)
        (parse_symbol_html : string → list string)
        (parse_object_html : string → list string * list string)
        (gtk_major_version : Z).

(** What [available[version_key]] and [deprecated[version_key]] hold for
    the release [3.version_minor]. *)
Definition available_listing (version_minor : Z) : list string :=
  get_available_symbols source_dir parse_symbol_html parse_object_html
    !!! version_key 3 version_minor.

Definition deprecated_listing (version_minor : Z) : list string :=
  get_deprecated_symbols source_dir parse_symbol_html parse_object_html
    !!! version_key 3 version_minor.

(** What the deprecation pass at release [(vM, vm)] makes of the record
    [o] of a name that the listing of that release contains. *)
Definition deprecated_record (vM vm : Z) (s : string) (o : option GtkSymbol) : GtkSymbol :=
  match o with
  | Some r => set_maximum_gtk_version (vM, vm) r
  | None => mkGtkSymbol s (gtk_major_version, 0) (vM, vm)
  end.

(** The oldest release whose available listing names [s], and the oldest
    whose deprecated listing does. *)
Definition first_available (s : string) : option Z :=
  head (filter (λ v, s ∈ available_listing v) known_minors).

Definition oldest_deprecated (s : string) : option Z :=
  head (filter (λ v, s ∈ deprecated_listing v) known_minors).

(** The record a name ends with, read off the listings: introduced at the
    first release that lists it, then narrowed to (or created at) the
    oldest release that lists it as deprecated. *)
Definition final_record (s : string) : option GtkSymbol :=
  let introduced := (λ v, mkGtkSymbol s (3, v) (3, 12)) <$> first_available s in
  match oldest_deprecated s with
  | Some v => Some (deprecated_record 3 v s introduced)
  | None => introduced
  end.

End Listings.

(** ** A worked listing *)

(** The documents of the example, below the directory [root]:
    [gtk_widget_show] is indexed from 3.0, [gtk_widget_show_all] from 3.4
    and listed as deprecated in 3.10; [gtk_old] is only ever listed as
    deprecated (3.6 and 3.8); [gtk_early] is listed as deprecated in 3.0
    but indexed from 3.4 only; [GtkTable] is an object of 3.0 that 3.4
    moves to the deprecated chapter. *)
Module Example.

Definition parse_symbol_html (root filename : string) : list string :=
  if bool_decide (filename = root +:+ "developer.gnome.org/gtk3/3.0/api-index-full.html")
  then ["gtk_widget_show"]
  else if bool_decide (filename = root +:+ "developer.gnome.org/gtk3/3.4/api-index-full.html")
  then ["gtk_widget_show_all"; "gtk_early"]
  else if bool_decide (filename = root +:+ "developer.gnome.org/gtk3/3.10/api-index-deprecated.html")
  then ["gtk_widget_show_all"]
  else if bool_decide (filename = root +:+ "developer.gnome.org/gtk3/3.6/api-index-deprecated.html")
  then ["gtk_old"]
  else if bool_decide (filename = root +:+ "developer.gnome.org/gtk3/3.8/api-index-deprecated.html")
  then ["gtk_old"]
  else if bool_decide (filename = root +:+ "developer.gnome.org/gtk3/3.0/api-index-deprecated.html")
  then ["gtk_early"]
  else [].

Definition parse_object_html (root filename : string) : list string * list string :=
  if bool_decide (filename = root +:+ "developer.gnome.org/gtk3/3.0/gtkobjects.html")
  then (["GtkTable"], [])
  else if bool_decide (filename = root +:+ "developer.gnome.org/gtk3/3.4/gtkobjects.html")
  then ([], ["GtkTable"])
  else ([], []).

(** The process runs in [/home/user/project]. *)
Definition source_dir : string := "/home/user/project".
Definition root : string := "/home/user/project/".

Definition available_listing : Z → list string :=
  available_listing source_dir (parse_symbol_html root) (parse_object_html root).

Definition deprecated_listing : Z → list string :=
  deprecated_listing source_dir (parse_symbol_html root) (parse_object_html root).

Definition introduction_pass : option (gmap string GtkSymbol) :=
  introduction_pass source_dir (parse_symbol_html root) (parse_object_html root).

Definition get_symbols (gtk_major_version : Z) : option (gmap string GtkSymbol) :=
  get_symbols source_dir (parse_symbol_html root) (parse_object_html root)
    gtk_major_version.

(** The same documents, in a working directory written with its final
    separator. *)
Definition other_dir : string := "/srv/docs/".

(** A scraper that reports every name of an index twice, the second time
    in reverse order. *)
Definition parse_symbol_html_twice (root filename : string) : list string :=
  parse_symbol_html root filename ++ reverse (parse_symbol_html root filename).

End Example.

(** ** Fetching the documents *)

(** [os.path.join(a, *p)]: the components are joined from the left. *)
Definition path_join_all (a : string) (p : list string) : string :=
  foldl path_join a p.

(** The three documents of a release. *)
Definition api_filenames : list string :=
  ["api-index-full.html"; "api-index-deprecated.html"; "gtkobjects.html"].

Section ApiDocuments.

Variable source_dir : string.

(** [os.path.exists], as the file system answers when it is asked. *)
Variable path_exists : string → bool.

(** The path [check_api_versions] and [get_api_documents] test:
    [os.path.join(self.source_dir, 'developer.gnome.org', 'gtk3',
    '%i.%i' % (version_major, version_minor), filename)]. *)
Definition api_document (version_major version_minor : Z) (filename : string) : string :=
  path_join_all source_dir
    ["developer.gnome.org"; "gtk3"; version_key version_major version_minor; filename].

(** The loop of [check_api_versions]; the inner [for] returns at the first
    document that is not on disk. *)
Equations? check_api_versions_loop (version_major version_minor : Z) : Z * Z
  by wf (Z.to_nat (13 - version_minor)) lt :=
  check_api_versions_loop version_major version_minor
    with decide (version_minor <= 12) => {
    | left _ =>
        if existsb (λ filename,
                      negb (path_exists (api_document version_major version_minor filename)))
             api_filenames
        then (version_major, version_minor)
        else check_api_versions_loop version_major (version_minor + 2);
    | right _ => (version_major, version_minor) }.
Proof. lia. Qed.

Definition check_api_versions : Z * Z := check_api_versions_loop 3 0.

(** The paths of [get_api_documents]: the directory it creates, the file
    name below it, and the file [urlretrieve] is told to write. *)
Definition download_dir (version_major version_minor : Z) : string :=
  path_join source_dir
    ("developer.gnome.org/gtk3/" +:+ version_key version_major version_minor).

Definition local_filename (version_major version_minor : Z) (filename : string) : string :=
  path_join (download_dir version_major version_minor) filename.

Definition download_target (version_major version_minor : Z) (filename : string) : string :=
  path_join source_dir (local_filename version_major version_minor filename).

End ApiDocuments.

(** *** The loop of [__init__] *)

Section Downloads.

(** The state of the file system; the calls below read it and change
    it. *)
Variable world : Type.

Variable source_dir : string.

(** [os.path.exists] and [os.path.isdir]. *)
Variable path_exists : world → string → bool.
Variable isdir : world → string → bool.

(** [os.makedirs]; [None] when it raises, which nothing catches. *)
Variable makedirs : world → string → option world.

(** [urllib.request.urlretrieve(url, filename=...)]: the state it leaves,
    and whether it returned; [false] is the [Exception] that
    [get_api_documents] catches. *)
Variable urlretrieve : world → string → string → world * bool.

(** ["https://developer.gnome.org/gtk3/%i.%i/%s" % (version_major,
    version_minor, filename)]. *)
Definition download_url (version_major version_minor : Z) (filename : string) : string :=
  "https://developer.gnome.org/gtk3/" +:+ version_key version_major version_minor
    +:+ "/" +:+ filename.

(** The [for] loop of [get_api_documents]: [Some (w, true)] when it runs
    to its end, [Some (w, false)] at the first download that fails, [None]
    when [os.makedirs] raises. *)
Fixpoint get_api_documents_loop (w : world) (version_major version_minor : Z)
    (filenames : list string) : option (world * bool) :=
  match filenames with
  | [] => Some (w, true)
  | filename :: filenames =>
      if path_exists w (api_document source_dir version_major version_minor filename)
      then get_api_documents_loop w version_major version_minor filenames
      else
        w ← (if isdir w (download_dir source_dir version_major version_minor)
             then Some w
             else makedirs w (download_dir source_dir version_major version_minor));
        let '(w, retrieved) :=
          urlretrieve w (download_url version_major version_minor filename)
            (download_target source_dir version_major version_minor filename) in
        if retrieved
        then get_api_documents_loop w version_major version_minor filenames
        else Some (w, false)
  end.

(** [get_api_documents]: the line it prints, and what its loop does. *)
Definition get_api_documents (w : world) (version_major version_minor : Z)
    : string * option (world * bool) :=
  ("Getting API documents for GTK " +:+ version_key version_major version_minor
     +:+ " ...",
   get_api_documents_loop w version_major version_minor api_filenames).

(** The [while True] loop of [__init__], for at most [fuel] rounds.  The
    result is [None] when the rounds do not suffice; otherwise the lines
    printed and the state the loop leaves, [None] for that state when
    [os.makedirs] raised. *)
Fixpoint init_loop (fuel : nat) (w : world) (printed : list string)
    : option (list string * option world) :=
  match fuel with
  | O => None
  | S fuel =>
      let '(major, minor) := check_api_versions source_dir (path_exists w) in
      if decide (minor > 12) then Some (printed, Some w)
      else
        let '(line, documents) := get_api_documents w major minor in
        match documents with
        | None => Some (printed ++ [line], None)
        | Some (w, true) => init_loop fuel w (printed ++ [line])
        | Some (w, false) => Some (printed ++ [line], Some w)
        end
  end.

End Downloads.

(** ** Scanning the project *)

(** The scanners search for and cut at ASCII characters only; a Python
    string is taken as the string of its bytes. *)

(** [needle in s]. *)
Fixpoint contains (s needle : string) : bool :=
  String.prefix needle s
  || match s with
     | EmptyString => false
     | String _ s' => contains s' needle
     end.

(** [s.endswith(suffix)]. *)
Fixpoint endswith (s suffix : string) : bool :=
  bool_decide (s = suffix)
  || match s with
     | EmptyString => false
     | String _ s' => endswith s' suffix
     end.

(** The double quote, the separator the markup scanner splits at. *)
Definition quote : ascii := ascii_of_nat 34.

(** [s.split(sep)] for a separator of one character: the pieces between
    the separators, at least one piece. *)
Fixpoint split (sep : ascii) (s : string) : list string :=
  match s with
  | EmptyString => [EmptyString]
  | String c s' =>
      if decide (c = sep) then EmptyString :: split sep s'
      else match split sep s' with
           | piece :: pieces => String c piece :: pieces
           | [] => [String c EmptyString]
           end
  end.

(** [s.replace(old, new)] for an [old] of one character. *)
Fixpoint replace (old : ascii) (new : string) (s : string) : string :=
  match s with
  | EmptyString => EmptyString
  | String c s' =>
      if decide (c = old) then new +:+ replace old new s'
      else String c (replace old new s')
  end.

(** The characters [parse_c_file] replaces before it cuts a line. *)
Definition punctuation : list ascii :=
  ["("; ")"; ":"; "!"; ","; "#"; "."; "*"]%char.

(** The idiom [if symbol not in symbols: symbols.append(symbol)]. *)
Definition append_new (symbols : list string) (symbol : string) : list string :=
  if decide (symbol ∈ symbols) then symbols else symbols ++ [symbol].

(** The extensions [get_filenames] keeps. *)
Definition is_c_file (filename : string) : bool :=
  endswith filename ".c" || endswith filename ".h".

Definition is_glade_file (filename : string) : bool :=
  endswith filename ".glade" || endswith filename ".ui".

(** The module-level functions of the script.  [get_symbols] here is the
    function that scans a source tree, not the method of the listing. *)
Module Scan.
Section Scan.

(** [os.walk(source_dir)]: the triples [(root, dirs, files)] in the order
    they are produced. *)
Variable walk : string → list (string * list string * list string).

(** [open(filename, 'r').readlines()]; [None] when opening or reading
    raises. *)
Variable readlines : string → option (list string).

(** [str.strip()] and [str.split()], which cut at white space. *)
Variable strip : string → string.
Variable split_whitespace : string → list string.

Definition get_filenames (source_dir : string) : list string :=
  foldl (λ source_files '(root, dirs, files),
           foldl (λ source_files filename,
                    if endswith filename ".c" || endswith filename ".h"
                       || endswith filename ".glade" || endswith filename ".ui"
                    then source_files ++ [path_join root filename]
                    else source_files)
             source_files files)
    [] (walk source_dir).

(** One pass of [for library in ['gtk', 'Gtk']] over a line: the line is
    rewritten in place, so the second pass reads what the first one
    left. *)
Definition scan_library (state : string * list string) (library : string)
    : string * list string :=
  let '(line, symbols) := state in
  if contains line library then
    let line := replace "("%char " " line in
    let line := replace ")"%char " " line in
    let line := replace ":"%char " " line in
    let line := replace "!"%char "" line in
    let line := replace ","%char " " line in
    let line := replace "#"%char " " line in
    let line := replace "."%char " " line in
    let line := replace "*"%char " " line in
    (line,
     foldl (λ symbols item,
              if String.prefix library item then append_new symbols item
              else symbols)
       symbols (split_whitespace line))
  else (line, symbols).

(** The body of the loop of [parse_c_file] over the lines. *)
Definition parse_c_line (symbols : list string) (line : string) : list string :=
  let line := strip line in
  if String.prefix "#if" line || String.prefix "#else" line
     || String.prefix "endif" line || String.prefix "#include" line
     || String.prefix "#define" line
  then symbols
  else (foldl scan_library (line, symbols) ["gtk"; "Gtk"]).2.

Definition parse_c_file (filename : string) : option (list string) :=
  lines ← readlines filename;
  Some (foldl parse_c_line [] lines).

(** The body of the loop of [parse_glade_file]; [None] is the
    [IndexError] of the subscript [[1]] on the pieces of the line. *)
Definition parse_glade_line (symbols : list string) (line : string)
    : option (list string) :=
  if contains line "object class" then
    part ← split quote line !! 1%nat;
    symbol ← split quote part !! 0%nat;
    Some (append_new symbols symbol)
  else Some symbols.

Definition parse_glade_file (filename : string) : option (list string) :=
  lines ← readlines filename;
  foldl (λ symbols line, symbols ← symbols; parse_glade_line symbols line)
    (Some []) lines.

(** [get_symbols(source_dir)]; [None] when a parser raises. *)
Definition get_symbols (source_dir : string) : option (list string) :=
  foldl (λ symbols filename,
           symbols ← symbols;
           if endswith filename ".c" || endswith filename ".h" then
             found ← parse_c_file filename;
             Some (foldl append_new symbols found)
           else if endswith filename ".glade" || endswith filename ".ui" then
             found ← parse_glade_file filename;
             Some (foldl append_new symbols found)
           else Some symbols)
    (Some []) (get_filenames source_dir).

End Scan.
End Scan.

(** A small project to scan: a C file and a UI description below
    [/home/user/project].  White space is cut as [String.words] does. *)
Module ExampleProject.

Definition nl : string := String "010"%char "".

Definition quoted (s : string) : string := String quote (s +:+ String quote "").

Definition walk (source_dir : string) : list (string * list string * list string) :=
  if bool_decide (source_dir = "/home/user/project") then
    [("/home/user/project", ["src"; "data"], ["README"]);
     ("/home/user/project/src", [], ["main.c"; "notes.txt"]);
     ("/home/user/project/data", [], ["window.ui"])]
  else [].

Definition readlines (filename : string) : option (list string) :=
  if bool_decide (filename = "/home/user/project/src/main.c") then
    Some ["#include <gtk/gtk.h>" +:+ nl;
          "  gtk_widget_show(widget);" +:+ nl;
          "  GtkWidget *box = gtk_box_new (GTK_ORIENTATION_VERTICAL, 0);" +:+ nl]
  else if bool_decide (filename = "/home/user/project/data/window.ui") then
    Some ["<interface>" +:+ nl;
          "  <object class=" +:+ quoted "GtkWindow" +:+ " id=" +:+ quoted "window"
            +:+ ">" +:+ nl;
          "  <object class=" +:+ quoted "GtkBox" +:+ " id=" +:+ quoted "box"
            +:+ ">" +:+ nl]
  else None.

Fixpoint lstrip (s : string) : string :=
  match s with
  | EmptyString => EmptyString
  | String c s' => if Ascii.is_space c then lstrip s' else s
  end.

Definition strip (s : string) : string :=
  String.rev (lstrip (String.rev (lstrip s))).

Definition split_whitespace : string → list string := String.words.

Definition get_symbols : string → option (list string) :=
  Scan.get_symbols walk readlines strip split_whitespace.

End ExampleProject.

(** A file system to fetch into: the state is the list of the paths that
    exist; [os.makedirs] and [urlretrieve] add the path they are given.
    The server does not answer for an address that contains [offline]. *)
Module ExampleDownload.

Definition world : Type := list string.

Definition path_exists (w : world) (path : string) : bool := bool_decide (path ∈ w).

Definition isdir (w : world) (path : string) : bool := bool_decide (path ∈ w).

Definition makedirs (w : world) (path : string) : option world := Some (path :: w).

Definition urlretrieve (offline : option string) (w : world) (url filename : string)
    : world * bool :=
  match offline with
  | Some release => if contains url release then (w, false) else (filename :: w, true)
  | None => (filename :: w, true)
  end.

Definition source_dir : string := "/home/user/project".

(** The documents of 3.0 are there, and one of 3.2. *)
Definition cached : world :=
  ["/home/user/project/developer.gnome.org/gtk3/3.0";
   "/home/user/project/developer.gnome.org/gtk3/3.0/api-index-full.html";
   "/home/user/project/developer.gnome.org/gtk3/3.0/api-index-deprecated.html";
   "/home/user/project/developer.gnome.org/gtk3/3.0/gtkobjects.html";
   "/home/user/project/developer.gnome.org/gtk3/3.2";
   "/home/user/project/developer.gnome.org/gtk3/3.2/gtkobjects.html"].

Definition init_loop (offline : option string) : nat → world → list string
    → option (list string * option world) :=
  init_loop world source_dir path_exists isdir makedirs (urlretrieve offline).

End ExampleDownload.

(** The last loop of the script: every scanned symbol is checked against
    the listing; the result is what the run prints. *)
Definition check_symbols (symbols : gmap string GtkSymbol) (hide_not_found : bool)
    (scanned : list string) (gtk_major_version gtk_minor_version : Z) : list string :=
  foldl (λ printed symbol,
           printed ++ (check_available_symbol symbols hide_not_found symbol
                         gtk_major_version gtk_minor_version).1)
    [] scanned.

(** ** Properties of [check_version] *)

Lemma check_version_cases (self : GtkSymbol) (major_version minor_version : Z) :
  check_version self major_version minor_version = -1 ∨
  check_version self major_version minor_version = 1 ∨
  check_version self major_version minor_version = 0.
Proof.
  unfold check_version.
  destruct (minimum_gtk_version self), (maximum_gtk_version self).
  repeat case_match; auto.
Qed.

Ltac unfold_check :=
  unfold check_version, version_lt, version_le;
  repeat match goal with
         | |- context [minimum_gtk_version ?r] => destruct (minimum_gtk_version r)
         | |- context [maximum_gtk_version ?r] => destruct (maximum_gtk_version r)
         end; simpl.

Ltac split_tests :=
  repeat match goal with
         | |- context [bool_decide ?P] => destruct (bool_decide_reflect P)
         end; simpl.

(** C2: [check_version] answers [-1] (too new) exactly when the requested
    version is strictly below the record's minimum version in the
    lexicographic order on (major, minor).  The function reads its
    arguments only: it is a function of the record and the two numbers. *)
Theorem check_version_too_new (self : GtkSymbol) (major_version minor_version : Z) :
  check_version self major_version minor_version = -1
  ↔ version_lt (major_version, minor_version) (minimum_gtk_version self).
Proof.
  unfold_check. split_tests; split; intros; try done; lia.
Qed.

(** C1: for a requested version that is not strictly below the minimum,
    [check_version] answers [1] (deprecated) exactly when the requested
    major exceeds the maximum's major or the requested minor exceeds the
    maximum's minor, the two components compared one by one; and it
    answers [0] (valid) in every other case. *)
Theorem check_version_deprecated (self : GtkSymbol) (major_version minor_version : Z) :
  ¬ version_lt (major_version, minor_version) (minimum_gtk_version self) →
  (check_version self major_version minor_version = 1
   ↔ (major_version > (maximum_gtk_version self).1
      ∨ minor_version > (maximum_gtk_version self).2))
  ∧ (¬ (major_version > (maximum_gtk_version self).1
        ∨ minor_version > (maximum_gtk_version self).2)
     → check_version self major_version minor_version = 0).
Proof.
  unfold_check. intros Hmin.
  split_tests; (split; [split|]); intros; try done; lia.
Qed.

(** The rule is not the tuple comparison: at 3.14, a record whose maximum
    is (4, 0) is reported deprecated although (3, 14) < (4, 0). *)
Lemma check_version_deprecated_witness :
  ¬ version_lt (3, 14) (3, 0)
  ∧ check_version (mkGtkSymbol "gtk_x" (3, 0) (4, 0)) 3 14 = 1.
Proof.
  assert (H : ¬ version_lt (3, 14) (minimum_gtk_version (mkGtkSymbol "gtk_x" (3, 0) (4, 0)))).
  { unfold version_lt; simpl; lia. }
  split; [exact H|].
  apply (check_version_deprecated (mkGtkSymbol "gtk_x" (3, 0) (4, 0)) 3 14 H).
  simpl; lia.
Defined.

(** ** The loops of the listing, unrolled *)

(** The least element of an ascending list that satisfies a predicate is
    the first one the filter keeps. *)
Lemma head_filter_least (P : Z → Prop) `{!∀ x, Decision (P x)} (vs : list Z) (v : Z) :
  StronglySorted Z.lt vs →
  v ∈ vs → P v → (∀ v', v' ∈ vs → P v' → v <= v') →
  head (filter P vs) = Some v.
Proof.
  induction 1 as [|a vs Hsorted IH Hall]; intros Hin HP Hleast.
  - by apply elem_of_nil in Hin.
  - destruct (decide (P a)) as [Ha|Ha].
    + rewrite filter_cons_True by done. simpl. f_equal.
      assert (v <= a) by (apply Hleast; [left|done]).
      apply elem_of_cons in Hin as [->|Hin]; [done|].
      rewrite Forall_forall in Hall. specialize (Hall v Hin). lia.
    + rewrite filter_cons_False by done.
      apply elem_of_cons in Hin as [->|Hin]; [done|].
      apply IH; [done..|]. intros v' ? ?. apply Hleast; [by right|done].
Qed.

Lemma head_filter_None (P : Z → Prop) `{!∀ x, Decision (P x)} (vs : list Z) :
  head (filter P vs) = None ↔ ∀ v, v ∈ vs → ¬ P v.
Proof.
  rewrite head_None. split.
  - intros Hnil v Hv HP. by apply (filter_nil_not_elem_of P vs v).
  - intros Hnone. induction vs as [|a vs IH]; [done|].
    rewrite filter_cons_False by (apply Hnone; left).
    apply IH. intros v ?. apply Hnone. by right.
Qed.

Lemma head_filter_Some (P : Z → Prop) `{!∀ x, Decision (P x)} (vs : list Z) (v : Z) :
  head (filter P vs) = Some v → v ∈ vs ∧ P v.
Proof.
  intros Hhead. apply head_Some_elem_of in Hhead.
  by apply list_elem_of_filter in Hhead as [? ?].
Qed.

Lemma head_filter_Some_least (P : Z → Prop) `{!∀ x, Decision (P x)} (vs : list Z) (v : Z) :
  StronglySorted Z.lt vs →
  head (filter P vs) = Some v →
  ∀ v', v' ∈ vs → P v' → v <= v'.
Proof.
  induction 1 as [|a vs Hsorted IH Hall]; intros Hhead v' Hin HP.
  - by apply elem_of_nil in Hin.
  - rewrite Forall_forall in Hall. destruct (decide (P a)) as [Ha|Ha].
    + rewrite filter_cons_True in Hhead by done. simplify_eq/=.
      apply elem_of_cons in Hin as [->|Hin]; [done|].
      specialize (Hall v' Hin). lia.
    + rewrite filter_cons_False in Hhead by done.
      apply elem_of_cons in Hin as [->|Hin]; [done|]. by apply IH.
Qed.

Lemma known_minors_sorted : StronglySorted Z.lt known_minors.
Proof. unfold known_minors. repeat constructor; lia. Qed.

Lemma known_minors_nonneg (v : Z) : v ∈ known_minors → 0 <= v <= 12.
Proof.
  unfold known_minors. intros Hv.
  repeat (apply elem_of_cons in Hv as [->|Hv]); try lia.
  by apply elem_of_nil in Hv.
Qed.

(** [symbol in list(symbols.keys())] is a lookup. *)
Lemma elem_of_keys {A} (m : gmap string A) (k : string) :
  k ∈ (map_to_list m).*1 ↔ is_Some (m !! k).
Proof.
  rewrite list_elem_of_fmap. split.
  - intros [[k' x] [-> Hin]]. apply elem_of_map_to_list in Hin. by exists x.
  - intros [x Hx]. exists (k, x). split; [done|]. by apply elem_of_map_to_list.
Qed.

Ltac unroll_step step exit :=
  rewrite (step 3 0 2), (step 3 2 4), (step 3 4 6), (step 3 6 8),
    (step 3 8 10), (step 3 10 12), (step 3 12 14), exit by lia.

Ltac lookup_known Hv :=
  unfold known_minors in Hv;
  repeat (apply elem_of_cons in Hv as [->|Hv]); [..|by apply elem_of_nil in Hv];
  repeat (rewrite lookup_insert;
          let Hk := fresh "Hk" in
          case_decide as Hk; [try done; by vm_compute in Hk|]); done.

Section Loops.

Context (source_dir : string)
        (parse_symbol_html : string → list string)
        (parse_object_html : string → list string * list string)
        (gtk_major_version : Z).

#[local] Abbreviation document := (document source_dir).
#[local] Abbreviation available_listing :=
  (available_listing source_dir parse_symbol_html parse_object_html).
#[local] Abbreviation deprecated_listing :=
  (deprecated_listing source_dir parse_symbol_html parse_object_html).
#[local] Abbreviation deprecate := (deprecate gtk_major_version).
#[local] Abbreviation deprecated_record := (deprecated_record gtk_major_version).

(** *** The two dictionaries of listings *)

Lemma get_available_symbols_loop_step vM vm vm' d :
  vm <= 12 → vm' = vm + 2 →
  get_available_symbols_loop source_dir parse_symbol_html parse_object_html vM vm d =
  get_available_symbols_loop source_dir parse_symbol_html parse_object_html vM vm'
    (<[version_key vM vm :=
         parse_symbol_html (document (version_key vM vm) "api-index-full.html")
         ++ (parse_object_html (document (version_key vM vm) "gtkobjects.html")).1]> d).
Proof.
  intros ? ->. match goal with |- _ = ?r => set (R := r) end.
  simp get_available_symbols_loop.
  destruct (decide (vm <= 12)); simpl; [done|lia].
Qed.

Lemma get_available_symbols_loop_exit vM vm d :
  12 < vm →
  get_available_symbols_loop source_dir parse_symbol_html parse_object_html vM vm d = d.
Proof.
  intros ?. simp get_available_symbols_loop.
  destruct (decide (vm <= 12)); simpl; [lia|done].
Qed.

Lemma get_deprecated_symbols_loop_step vM vm vm' d :
  vm <= 12 → vm' = vm + 2 →
  get_deprecated_symbols_loop source_dir parse_symbol_html parse_object_html vM vm d =
  get_deprecated_symbols_loop source_dir parse_symbol_html parse_object_html vM vm'
    (<[version_key vM vm :=
         parse_symbol_html (document (version_key vM vm) "api-index-deprecated.html")
         ++ (parse_object_html (document (version_key vM vm) "gtkobjects.html")).2]> d).
Proof.
  intros ? ->. match goal with |- _ = ?r => set (R := r) end.
  simp get_deprecated_symbols_loop.
  destruct (decide (vm <= 12)); simpl; [done|lia].
Qed.

Lemma get_deprecated_symbols_loop_exit vM vm d :
  12 < vm →
  get_deprecated_symbols_loop source_dir parse_symbol_html parse_object_html vM vm d = d.
Proof.
  intros ?. simp get_deprecated_symbols_loop.
  destruct (decide (vm <= 12)); simpl; [lia|done].
Qed.

(** Both dictionaries have an entry for each of the seven releases: the
    two scraped lists, concatenated. *)
Lemma get_available_symbols_lookup v :
  v ∈ known_minors →
  get_available_symbols source_dir parse_symbol_html parse_object_html
    !! version_key 3 v
  = Some (parse_symbol_html (document (version_key 3 v) "api-index-full.html")
          ++ (parse_object_html (document (version_key 3 v) "gtkobjects.html")).1).
Proof.
  intros Hv. unfold get_available_symbols.
  unroll_step get_available_symbols_loop_step get_available_symbols_loop_exit.
  lookup_known Hv.
Qed.

Lemma get_deprecated_symbols_lookup v :
  v ∈ known_minors →
  get_deprecated_symbols source_dir parse_symbol_html parse_object_html
    !! version_key 3 v
  = Some (parse_symbol_html (document (version_key 3 v) "api-index-deprecated.html")
          ++ (parse_object_html (document (version_key 3 v) "gtkobjects.html")).2).
Proof.
  intros Hv. unfold get_deprecated_symbols.
  unroll_step get_deprecated_symbols_loop_step get_deprecated_symbols_loop_exit.
  lookup_known Hv.
Qed.

Lemma available_lookup v :
  v ∈ known_minors →
  get_available_symbols source_dir parse_symbol_html parse_object_html
    !! version_key 3 v = Some (available_listing v).
Proof.
  intros Hv. unfold available_listing.
  by rewrite (lookup_total_correct _ _ _ (get_available_symbols_lookup v Hv)),
    get_available_symbols_lookup.
Qed.

Lemma deprecated_lookup v :
  v ∈ known_minors →
  get_deprecated_symbols source_dir parse_symbol_html parse_object_html
    !! version_key 3 v = Some (deprecated_listing v).
Proof.
  intros Hv. unfold deprecated_listing.
  by rewrite (lookup_total_correct _ _ _ (get_deprecated_symbols_lookup v Hv)),
    get_deprecated_symbols_lookup.
Qed.

(** *** One inner [for], seen from one name *)

Lemma introduce_lookup vM vm (symbols : gmap string GtkSymbol) (x s : string) :
  introduce vM vm symbols x !! s
  = match symbols !! s with
    | Some r => Some r
    | None => if decide (s = x) then Some (mkGtkSymbol s (vM, vm) (3, 12)) else None
    end.
Proof.
  unfold introduce. case_bool_decide as Hkeys.
  - rewrite elem_of_keys, <-eq_None_not_Some in Hkeys.
    destruct (decide (s = x)) as [->|Hne].
    + by rewrite lookup_insert_eq, Hkeys.
    + rewrite lookup_insert_ne by done. by destruct (symbols !! s).
  - rewrite elem_of_keys in Hkeys.
    destruct (symbols !! s) eqn:Hs; [done|].
    destruct (decide (s = x)) as [->|]; [|done].
    rewrite Hs in Hkeys. by destruct Hkeys.
Qed.

Lemma foldl_introduce_lookup vM vm (listing : list string)
    (symbols : gmap string GtkSymbol) (s : string) :
  foldl (introduce vM vm) symbols listing !! s
  = match symbols !! s with
    | Some r => Some r
    | None => if decide (s ∈ listing)
              then Some (mkGtkSymbol s (vM, vm) (3, 12)) else None
    end.
Proof.
  revert symbols. induction listing as [|x listing IH]; intros symbols; simpl.
  - by destruct (symbols !! s).
  - rewrite IH, introduce_lookup. destruct (symbols !! s); [done|].
    destruct (decide (s = x)) as [->|Hne].
    + by rewrite decide_True by left.
    + destruct (decide (s ∈ listing)).
      * by rewrite decide_True by (by right).
      * rewrite decide_False; [done|]. by intros [?|?]%elem_of_cons.
Qed.

Lemma deprecate_lookup vM vm (symbols : gmap string GtkSymbol) (x s : string) :
  deprecate vM vm symbols x !! s
  = if decide (s = x) then Some (deprecated_record vM vm s (symbols !! s))
    else symbols !! s.
Proof.
  unfold deprecate. case_bool_decide as Hkeys.
  - rewrite elem_of_keys in Hkeys. destruct (decide (s = x)) as [->|Hne].
    + rewrite lookup_alter_eq. by destruct Hkeys as [r ->].
    + by rewrite lookup_alter_ne.
  - rewrite elem_of_keys, <-eq_None_not_Some in Hkeys.
    destruct (decide (s = x)) as [->|Hne].
    + by rewrite lookup_insert_eq, Hkeys.
    + by rewrite lookup_insert_ne.
Qed.

Lemma deprecated_record_twice vM vm vM' vm' s o :
  deprecated_record vM' vm' s (Some (deprecated_record vM vm s o))
  = deprecated_record vM' vm' s o.
Proof. by destruct o. Qed.

Lemma foldl_deprecate_lookup vM vm (listing : list string)
    (symbols : gmap string GtkSymbol) (s : string) :
  foldl (deprecate vM vm) symbols listing !! s
  = if decide (s ∈ listing)
    then Some (deprecated_record vM vm s (symbols !! s))
    else symbols !! s.
Proof.
  revert symbols. induction listing as [|x listing IH]; intros symbols; simpl.
  - done.
  - rewrite IH, deprecate_lookup. destruct (decide (s = x)) as [->|Hne].
    + rewrite (decide_True (P := x ∈ x :: listing)) by left.
      rewrite deprecated_record_twice. by destruct (decide (x ∈ listing)).
    + destruct (decide (s ∈ listing)).
      * by rewrite decide_True by (by right).
      * rewrite decide_False; [done|]. by intros [?|?]%elem_of_cons.
Qed.

(** *** The two passes of [get_symbols] *)

Lemma introduction_loop_step available vM vm vm' symbols listing :
  vm <= 12 → vm' = vm + 2 →
  available !! version_key vM vm = Some listing →
  introduction_loop available vM vm symbols
  = introduction_loop available vM vm' (foldl (introduce vM vm) symbols listing).
Proof.
  intros ? -> Hl. match goal with |- _ = ?r => set (R := r) end.
  simp introduction_loop.
  destruct (decide (vm <= 12)); simpl; [by rewrite Hl|lia].
Qed.

Lemma introduction_loop_exit available vM vm symbols :
  12 < vm → introduction_loop available vM vm symbols = Some symbols.
Proof.
  intros ?. simp introduction_loop.
  destruct (decide (vm <= 12)); simpl; [lia|done].
Qed.

Lemma deprecation_loop_step deprecated vM vm vm' symbols listing :
  0 <= vm <= 12 → vm' = vm - 2 →
  deprecated !! version_key vM vm = Some listing →
  deprecation_loop gtk_major_version deprecated vM vm symbols
  = deprecation_loop gtk_major_version deprecated vM vm'
      (foldl (deprecate vM vm) symbols listing).
Proof.
  intros ? -> Hl. match goal with |- _ = ?r => set (R := r) end.
  simp deprecation_loop.
  destruct (decide (vm <= 12 ∧ vm >= 0)); simpl; [by rewrite Hl|lia].
Qed.

Lemma deprecation_loop_exit deprecated vM vm symbols :
  vm < 0 →
  deprecation_loop gtk_major_version deprecated vM vm symbols = Some symbols.
Proof.
  intros ?. simp deprecation_loop.
  destruct (decide (vm <= 12 ∧ vm >= 0)); simpl; [lia|done].
Qed.

(** The introduction pass is a fold over the releases, oldest first. *)
Lemma introduction_pass_unrolled :
  introduction_pass source_dir parse_symbol_html parse_object_html
  = Some (foldl (λ symbols v, foldl (introduce 3 v) symbols (available_listing v))
            ∅ known_minors).
Proof.
  unfold introduction_pass.
  assert (Hk : ∀ v, v ∈ known_minors → v ∈ known_minors) by done.
  rewrite (introduction_loop_step _ 3 0 2 _ (available_listing 0)),
    (introduction_loop_step _ 3 2 4 _ (available_listing 2)),
    (introduction_loop_step _ 3 4 6 _ (available_listing 4)),
    (introduction_loop_step _ 3 6 8 _ (available_listing 6)),
    (introduction_loop_step _ 3 8 10 _ (available_listing 8)),
    (introduction_loop_step _ 3 10 12 _ (available_listing 10)),
    (introduction_loop_step _ 3 12 14 _ (available_listing 12)),
    introduction_loop_exit;
    try lia; try done;
    apply available_lookup; unfold known_minors; set_solver.
Qed.

(** The deprecation pass is a fold over the releases, newest first. *)
Lemma deprecation_pass_unrolled symbols :
  deprecation_loop gtk_major_version
    (get_deprecated_symbols source_dir parse_symbol_html parse_object_html)
    3 12 symbols
  = Some (foldl (λ symbols v, foldl (deprecate 3 v) symbols (deprecated_listing v))
            symbols (reverse known_minors)).
Proof.
  rewrite (deprecation_loop_step _ 3 12 10 _ (deprecated_listing 12)),
    (deprecation_loop_step _ 3 10 8 _ (deprecated_listing 10)),
    (deprecation_loop_step _ 3 8 6 _ (deprecated_listing 8)),
    (deprecation_loop_step _ 3 6 4 _ (deprecated_listing 6)),
    (deprecation_loop_step _ 3 4 2 _ (deprecated_listing 4)),
    (deprecation_loop_step _ 3 2 0 _ (deprecated_listing 2)),
    (deprecation_loop_step _ 3 0 (-2) _ (deprecated_listing 0)),
    deprecation_loop_exit;
    try lia; try done;
    apply deprecated_lookup; unfold known_minors; set_solver.
Qed.

End Loops.

(** From here on the loops are used through their unrolled forms only. *)
Opaque get_available_symbols_loop get_deprecated_symbols_loop
  introduction_loop deprecation_loop available_listing deprecated_listing.

Section Database.

Context (source_dir : string)
        (parse_symbol_html : string → list string)
        (parse_object_html : string → list string * list string)
        (gtk_major_version : Z).

#[local] Abbreviation available_listing :=
  (available_listing source_dir parse_symbol_html parse_object_html).
#[local] Abbreviation deprecated_listing :=
  (deprecated_listing source_dir parse_symbol_html parse_object_html).
#[local] Abbreviation deprecate := (deprecate gtk_major_version).
#[local] Abbreviation deprecated_record := (deprecated_record gtk_major_version).
#[local] Abbreviation first_available :=
  (first_available source_dir parse_symbol_html parse_object_html).
#[local] Abbreviation oldest_deprecated :=
  (oldest_deprecated source_dir parse_symbol_html parse_object_html).
#[local] Abbreviation final_record :=
  (final_record source_dir parse_symbol_html parse_object_html gtk_major_version).

(** *** The finished database, one name at a time *)

Lemma introduction_fold_lookup (vs : list Z) (symbols : gmap string GtkSymbol) (s : string) :
  foldl (λ symbols v, foldl (introduce 3 v) symbols (available_listing v)) symbols vs !! s
  = match symbols !! s with
    | Some r => Some r
    | None => (λ v, mkGtkSymbol s (3, v) (3, 12))
                <$> head (filter (λ v, s ∈ available_listing v) vs)
    end.
Proof.
  revert symbols. induction vs as [|v vs IH]; intros symbols; simpl.
  - by destruct (symbols !! s).
  - rewrite IH, foldl_introduce_lookup. destruct (symbols !! s); [done|].
    destruct (decide (s ∈ available_listing v)).
    + by rewrite filter_cons_True.
    + by rewrite filter_cons_False.
Qed.

Lemma deprecation_fold_lookup (ds : list Z) (symbols : gmap string GtkSymbol) (s : string) :
  foldl (λ symbols v, foldl (deprecate 3 v) symbols (deprecated_listing v)) symbols ds !! s
  = match last (filter (λ v, s ∈ deprecated_listing v) ds) with
    | Some v => Some (deprecated_record 3 v s (symbols !! s))
    | None => symbols !! s
    end.
Proof.
  revert symbols. induction ds as [|v ds IH]; intros symbols; simpl; [done|].
  rewrite IH, foldl_deprecate_lookup.
  destruct (decide (s ∈ deprecated_listing v)).
  - rewrite filter_cons_True, last_cons by done.
    destruct (last _); [|done]. by rewrite deprecated_record_twice.
  - by rewrite filter_cons_False.
Qed.

Lemma introduction_pass_lookup :
  ∃ symbols,
    introduction_pass source_dir parse_symbol_html parse_object_html = Some symbols
    ∧ ∀ s, symbols !! s = (λ v, mkGtkSymbol s (3, v) (3, 12)) <$> first_available s.
Proof.
  eexists. split; [apply introduction_pass_unrolled|].
  intros s. by rewrite introduction_fold_lookup, lookup_empty.
Qed.

(** [get_symbols] returns, and its dictionary holds [final_record]. *)
Lemma get_symbols_lookup :
  ∃ symbols,
    get_symbols source_dir parse_symbol_html parse_object_html gtk_major_version
    = Some symbols
    ∧ ∀ s, symbols !! s = final_record s.
Proof.
  unfold get_symbols. rewrite introduction_pass_unrolled. cbn [mbind option_bind].
  rewrite deprecation_pass_unrolled. eexists. split; [done|].
  intros s. rewrite deprecation_fold_lookup, introduction_fold_lookup, lookup_empty.
  by rewrite filter_reverse, last_reverse.
Qed.

(** Every record is stored under its own name. *)
Lemma final_record_name (k : string) (r : GtkSymbol) :
  final_record k = Some r → symbol_name r = k.
Proof.
  unfold final_record.
  destruct (first_available k), (oldest_deprecated k); simpl;
    intros [= <-]; reflexivity.
Qed.

Lemma first_available_least (s : string) (v : Z) :
  v ∈ known_minors → s ∈ available_listing v →
  (∀ v', v' ∈ known_minors → s ∈ available_listing v' → v <= v') →
  first_available s = Some v.
Proof.
  intros. apply (head_filter_least (λ v, s ∈ available_listing v));
    auto using known_minors_sorted.
Qed.

Lemma oldest_deprecated_least (s : string) (v : Z) :
  v ∈ known_minors → s ∈ deprecated_listing v →
  (∀ v', v' ∈ known_minors → s ∈ deprecated_listing v' → v <= v') →
  oldest_deprecated s = Some v.
Proof.
  intros. apply (head_filter_least (λ v, s ∈ deprecated_listing v));
    auto using known_minors_sorted.
Qed.

Lemma first_available_None (s : string) :
  first_available s = None ↔ ∀ v, v ∈ known_minors → s ∉ available_listing v.
Proof. apply (head_filter_None (λ v, s ∈ available_listing v)). Qed.

Lemma oldest_deprecated_None (s : string) :
  oldest_deprecated s = None ↔ ∀ v, v ∈ known_minors → s ∉ deprecated_listing v.
Proof. apply (head_filter_None (λ v, s ∈ deprecated_listing v)). Qed.

(** ** The database that [get_symbols] builds *)

#[local] Abbreviation get_symbols :=
  (get_symbols source_dir parse_symbol_html parse_object_html gtk_major_version).
#[local] Abbreviation introduction_pass :=
  (introduction_pass source_dir parse_symbol_html parse_object_html).

(** C3: a name whose earliest available listing is that of release 3.v has,
    in the finished database, the record stored under that name with
    minimum version (3, v).  Already the introduction pass leaves exactly
    that record, and an availability listing processed on a database that
    holds a record for the name leaves the record as it is: the first
    listing seen wins.  No other entry of the dictionary carries the name,
    so the name has this one record only. *)
Theorem first_seen_wins (s : string) (v : Z) :
  v ∈ known_minors → s ∈ available_listing v →
  (∀ v', v' ∈ known_minors → s ∈ available_listing v' → v <= v') →
  (∃ symbols r,
      get_symbols = Some symbols ∧ symbols !! s = Some r
      ∧ symbol_name r = s ∧ minimum_gtk_version r = (3, v)
      ∧ (∀ k r', symbols !! k = Some r' → symbol_name r' = s → k = s))
  ∧ (∃ symbols0,
        introduction_pass = Some symbols0
        ∧ symbols0 !! s = Some (mkGtkSymbol s (3, v) (3, 12)))
  ∧ (∀ (symbols : gmap string GtkSymbol) (r : GtkSymbol) (vM vm : Z)
       (listing : list string),
        symbols !! s = Some r →
        foldl (introduce vM vm) symbols listing !! s = Some r).
Proof.
  intros Hv Hs Hleast.
  pose proof (first_available_least s v Hv Hs Hleast) as Hfirst.
  split; [|split].
  - destruct get_symbols_lookup as (symbols & Hget & Hlookup).
    exists symbols.
    assert (∀ k r', symbols !! k = Some r' → symbol_name r' = s → k = s) as Hone.
    { intros k r' Hk <-. symmetry. apply final_record_name. by rewrite <-Hlookup. }
    specialize (Hlookup s). unfold final_record in Hlookup.
    rewrite Hfirst in Hlookup. simpl in Hlookup.
    destruct (oldest_deprecated s); eexists;
      (split; [exact Hget|]); (split; [exact Hlookup|]);
      (split; [reflexivity|]); (split; [reflexivity|exact Hone]).
  - destruct introduction_pass_lookup as (symbols0 & Hpass & Hlookup).
    exists symbols0. split; [exact Hpass|]. rewrite Hlookup, Hfirst. reflexivity.
  - intros symbols r vM vm listing Hr. by rewrite foldl_introduce_lookup, Hr.
Qed.

(** C4: a name that has a record [r0] after the introduction pass and
    whose oldest deprecated listing is that of release 3.v ends with
    maximum version (3, v): the finished record is [r0] with its maximum
    reassigned, nothing else. *)
Theorem deprecation_ends_at_oldest (s : string) (v : Z)
    (symbols0 : gmap string GtkSymbol) (r0 : GtkSymbol) :
  introduction_pass = Some symbols0 → symbols0 !! s = Some r0 →
  v ∈ known_minors → s ∈ deprecated_listing v →
  (∀ v', v' ∈ known_minors → s ∈ deprecated_listing v' → v <= v') →
  ∃ symbols r,
    get_symbols = Some symbols ∧ symbols !! s = Some r
    ∧ maximum_gtk_version r = (3, v)
    ∧ r = set_maximum_gtk_version (3, v) r0.
Proof.
  intros Hpass Hr0 Hv Hs Hleast.
  pose proof (oldest_deprecated_least s v Hv Hs Hleast) as Holdest.
  destruct introduction_pass_lookup as (symbols0' & Hpass' & Hlookup0).
  rewrite Hpass in Hpass'. injection Hpass' as <-.
  destruct get_symbols_lookup as (symbols & Hget & Hlookup).
  exists symbols. specialize (Hlookup s). unfold final_record in Hlookup.
  rewrite Holdest, <-Hlookup0, Hr0 in Hlookup. simpl in Hlookup.
  eexists. split; [exact Hget|]. split; [exact Hlookup|]. split; reflexivity.
Qed.

(** C5, as the code has it: a name that no available listing contains and
    whose oldest deprecated listing is that of release 3.v has the record
    with minimum version [(gtk_major_version, 0)] and maximum version
    (3, v), and no other entry carries the name; the minimum is the base
    version (3, 0) when the global [gtk_major_version] still is 3. *)
Theorem deprecated_only_record (s : string) (v : Z) :
  (∀ v', v' ∈ known_minors → s ∉ available_listing v') →
  v ∈ known_minors → s ∈ deprecated_listing v →
  (∀ v', v' ∈ known_minors → s ∈ deprecated_listing v' → v <= v') →
  ∃ symbols,
    get_symbols = Some symbols
    ∧ symbols !! s = Some (mkGtkSymbol s (gtk_major_version, 0) (3, v))
    ∧ (∀ k r', symbols !! k = Some r' → symbol_name r' = s → k = s).
Proof.
  intros Hnone Hv Hs Hleast.
  apply first_available_None in Hnone.
  pose proof (oldest_deprecated_least s v Hv Hs Hleast) as Holdest.
  destruct get_symbols_lookup as (symbols & Hget & Hlookup).
  exists symbols. split; [exact Hget|]. split.
  - rewrite Hlookup. unfold final_record. rewrite Holdest, Hnone. reflexivity.
  - intros k r' Hk <-. symmetry. apply final_record_name. by rewrite <-Hlookup.
Qed.

(** C6: a name that neither an available nor a deprecated listing of any
    release contains has no record, and for every requested version
    [check_available_symbol] takes its not-found branch: it returns
    [False], having printed the not-found line unless [hide_not_found] is
    set.  The function is total: nothing is raised. *)
Theorem unknown_symbol_not_found (s : string) (hide_not_found : bool)
    (major_version minor_version : Z) :
  (∀ v, v ∈ known_minors →
        (s ∉ available_listing v) ∧ (s ∉ deprecated_listing v)) →
  ∃ symbols,
    get_symbols = Some symbols
    ∧ symbols !! s = None
    ∧ check_available_symbol symbols hide_not_found s major_version minor_version
      = ((if hide_not_found then []
          else ["Symbol [" +:+ s +:+ "] was not found in the API documents"]),
         false).
Proof.
  intros Habsent.
  assert (first_available s = None) as Hfirst
    by (apply first_available_None; intros v Hv; apply (Habsent v Hv)).
  assert (oldest_deprecated s = None) as Holdest
    by (apply oldest_deprecated_None; intros v Hv; apply (Habsent v Hv)).
  destruct get_symbols_lookup as (symbols & Hget & Hlookup).
  exists symbols. split; [exact Hget|].
  assert (symbols !! s = None) as Hnone.
  { rewrite Hlookup. unfold final_record. rewrite Holdest, Hfirst. reflexivity. }
  split; [exact Hnone|]. unfold check_available_symbol. rewrite Hnone.
  destruct hide_not_found; reflexivity.
Qed.

(** C7: a name in the available listing of the base release 3.0 and in no
    deprecated listing has the record (3, 0) to (3, 12); [check_version]
    answers [0] for every release of the series, and
    [check_available_symbol] returns [True] without printing. *)
Theorem base_symbol_valid (s : string) (v : Z) (hide_not_found : bool) :
  s ∈ available_listing 0 →
  (∀ v', v' ∈ known_minors → s ∉ deprecated_listing v') →
  v ∈ known_minors →
  ∃ symbols r,
    get_symbols = Some symbols ∧ symbols !! s = Some r
    ∧ r = mkGtkSymbol s (3, 0) (3, 12)
    ∧ check_version r 3 v = 0
    ∧ check_available_symbol symbols hide_not_found s 3 v = ([], true).
Proof.
  intros Hbase Hnever Hv.
  assert (first_available s = Some 0) as Hfirst.
  { apply first_available_least; [unfold known_minors; left|done|].
    intros v' Hv' _. by apply known_minors_nonneg in Hv' as [? _]. }
  apply oldest_deprecated_None in Hnever.
  destruct get_symbols_lookup as (symbols & Hget & Hlookup).
  exists symbols, (mkGtkSymbol s (3, 0) (3, 12)).
  assert (symbols !! s = Some (mkGtkSymbol s (3, 0) (3, 12))) as Hrec.
  { rewrite Hlookup. unfold final_record. rewrite Hnever, Hfirst. reflexivity. }
  apply known_minors_nonneg in Hv.
  assert (check_version (mkGtkSymbol s (3, 0) (3, 12)) 3 v = 0) as Hcheck.
  { unfold check_version; simpl. split_tests; try reflexivity; lia. }
  split; [exact Hget|]. split; [exact Hrec|]. split; [reflexivity|].
  split; [exact Hcheck|].
  unfold check_available_symbol. rewrite Hrec, Hcheck. reflexivity.
Qed.

(** C9, as the code has it: a record of the finished database has its
    minimum at or below its maximum exactly when every release whose
    deprecated listing names the symbol comes at or after a release whose
    available listing names it, or else the symbol is in no available
    listing and [gtk_major_version] is at most 3. *)
Theorem range_ordered_iff (s : string) (symbols : gmap string GtkSymbol) (r : GtkSymbol) :
  get_symbols = Some symbols → symbols !! s = Some r →
  version_le (minimum_gtk_version r) (maximum_gtk_version r)
  ↔ (∀ vd, vd ∈ known_minors → s ∈ deprecated_listing vd →
       (∃ va, va ∈ known_minors ∧ s ∈ available_listing va ∧ va <= vd)
       ∨ ((∀ va, va ∈ known_minors → s ∉ available_listing va)
          ∧ gtk_major_version <= 3)).
Proof.
  intros Hget Hr.
  destruct get_symbols_lookup as (symbols' & Hget' & Hlookup).
  rewrite Hget in Hget'. injection Hget' as <-. clear Hget.
  rewrite Hlookup in Hr. clear Hlookup. unfold final_record in Hr.
  destruct (first_available s) as [va|] eqn:Hfirst;
    destruct (oldest_deprecated s) as [vd|] eqn:Holdest;
    simpl in Hr; [injection Hr as <-..|discriminate Hr];
    unfold version_le; simpl.
  - pose proof (head_filter_Some _ _ _ Hfirst) as [Hva HAva].
    pose proof (head_filter_Some _ _ _ Holdest) as [Hvd HDvd].
    pose proof (head_filter_Some_least _ _ _ known_minors_sorted Hfirst) as Hla.
    pose proof (head_filter_Some_least _ _ _ known_minors_sorted Holdest) as Hld.
    simpl in *. split.
    + intros Hle vd' Hvd' HD. left. exists va.
      specialize (Hld vd' Hvd' HD). repeat split; [done..|lia].
    + intros Hcond. destruct (Hcond vd Hvd HDvd) as [(va' & Hva' & HAva' & ?)|[Hno _]].
      * specialize (Hla va' Hva' HAva'). right. split; [done|]. lia.
      * by destruct (Hno va Hva).
  - pose proof (head_filter_Some _ _ _ Hfirst) as [Hva _].
    apply known_minors_nonneg in Hva.
    rewrite oldest_deprecated_None in Holdest. split.
    + intros _ vd Hvd HD. by destruct (Holdest vd Hvd).
    + intros _. right. split; [done|lia].
  - pose proof (head_filter_Some _ _ _ Holdest) as [Hvd HDvd].
    rewrite first_available_None in Hfirst. split.
    + intros Hle vd' _ _. right. split; [done|lia].
    + intros Hcond. destruct (Hcond vd Hvd HDvd) as [(va' & Hva' & ? & ?)|[_ ?]].
      * by destruct (Hfirst va' Hva').
      * apply known_minors_nonneg in Hvd. lia.
Qed.

End Database.

(** ** Determinism *)

Lemma filter_ext_elem_of {A} (P Q : A → Prop)
    `{!∀ x, Decision (P x)} `{!∀ x, Decision (Q x)} (l : list A) :
  (∀ x, x ∈ l → P x ↔ Q x) → filter P l = filter Q l.
Proof.
  induction l as [|a l IH]; intros Hext; [done|].
  assert (P a ↔ Q a) as Ha by (apply Hext; left).
  assert (filter P l = filter Q l) as Hl by (apply IH; intros x ?; apply Hext; by right).
  destruct (decide (P a)) as [HP|HP].
  - rewrite !filter_cons_True by tauto. by rewrite Hl.
  - rewrite !filter_cons_False by tauto. done.
Qed.

(** C8: the database is a function of the listings of the seven releases
    (and of the global [gtk_major_version]) and of nothing else.  Two
    constructions, whatever their working directories and documents, that
    read equal available and deprecated listings for every release both
    return, and return the same dictionary of records. *)
Theorem get_symbols_deterministic
    (source_dir1 source_dir2 : string)
    (parse_symbol_html1 parse_symbol_html2 : string → list string)
    (parse_object_html1 parse_object_html2 : string → list string * list string)
    (gtk_major_version : Z) :
  (∀ v, v ∈ known_minors →
        available_listing source_dir1 parse_symbol_html1 parse_object_html1 v
        = available_listing source_dir2 parse_symbol_html2 parse_object_html2 v
        ∧ deprecated_listing source_dir1 parse_symbol_html1 parse_object_html1 v
          = deprecated_listing source_dir2 parse_symbol_html2 parse_object_html2 v) →
  ∃ symbols,
    get_symbols source_dir1 parse_symbol_html1 parse_object_html1 gtk_major_version
    = Some symbols
    ∧ get_symbols source_dir2 parse_symbol_html2 parse_object_html2 gtk_major_version
      = Some symbols.
Proof.
  intros Hsame.
  destruct (get_symbols_lookup source_dir1 parse_symbol_html1 parse_object_html1
              gtk_major_version) as (symbols1 & Hget1 & Hlookup1).
  destruct (get_symbols_lookup source_dir2 parse_symbol_html2 parse_object_html2
              gtk_major_version) as (symbols2 & Hget2 & Hlookup2).
  exists symbols1. split; [exact Hget1|].
  rewrite Hget2. f_equal. apply map_eq. intros s.
  rewrite Hlookup1, Hlookup2. unfold final_record, first_available, oldest_deprecated.
  rewrite (filter_ext_elem_of
             (λ v, s ∈ available_listing source_dir1 parse_symbol_html1 parse_object_html1 v)
             (λ v, s ∈ available_listing source_dir2 parse_symbol_html2 parse_object_html2 v))
    by (intros v Hv; destruct (Hsame v Hv) as [-> _]; tauto).
  rewrite (filter_ext_elem_of
             (λ v, s ∈ deprecated_listing source_dir1 parse_symbol_html1 parse_object_html1 v)
             (λ v, s ∈ deprecated_listing source_dir2 parse_symbol_html2 parse_object_html2 v))
    by (intros v Hv; destruct (Hsame v Hv) as [_ ->]; tauto).
  reflexivity.
Qed.

(** ** The compliance check *)

(** C10: [check_available_symbol] returns [True] exactly when the name has
    a record and [check_version] answers [0] for it; a record answering
    [-1] or [1] and a missing record all give [False].  The flag
    [hide_not_found] never changes the value returned, nor what is printed
    for a name that has a record: it only drops the not-found line. *)
Theorem check_available_symbol_true (symbols : gmap string GtkSymbol)
    (hide_not_found : bool) (s : string) (major_version minor_version : Z) :
  ((check_available_symbol symbols hide_not_found s major_version minor_version).2 = true
   ↔ ∃ r, symbols !! s = Some r ∧ check_version r major_version minor_version = 0)
  ∧ (∀ r, symbols !! s = Some r →
          check_version r major_version minor_version = -1
          ∨ check_version r major_version minor_version = 1 →
          (check_available_symbol symbols hide_not_found s major_version minor_version).2
          = false)
  ∧ (symbols !! s = None →
     check_available_symbol symbols true s major_version minor_version = ([], false)
     ∧ check_available_symbol symbols false s major_version minor_version
       = (["Symbol [" +:+ s +:+ "] was not found in the API documents"], false))
  ∧ (check_available_symbol symbols true s major_version minor_version).2
    = (check_available_symbol symbols false s major_version minor_version).2
  ∧ (is_Some (symbols !! s) →
     check_available_symbol symbols true s major_version minor_version
     = check_available_symbol symbols false s major_version minor_version).
Proof.
  unfold check_available_symbol.
  destruct (symbols !! s) as [r|] eqn:Hr.
  - pose proof (check_version_cases r major_version minor_version) as Hcases.
    repeat split.
    + intros Hret. exists r. split; [done|].
      destruct Hcases as [H|[H|H]]; rewrite H in Hret; [done..|exact H].
    + intros (r' & [= <-] & H). by rewrite H.
    + intros r' [= <-] [H|H]; by rewrite H.
    + done.
    + done.
  - repeat split.
    + by destruct hide_not_found.
    + by intros (r' & ? & _).
    + done.
    + by intros [? ?].
Qed.

(** At 3.12 the deprecated [gtk_widget_show_all] of the worked listing is
    refused, the valid [gtk_widget_show] accepted, under either setting of
    the flag. *)
Lemma check_available_symbol_true_witness :
  let symbols : gmap string GtkSymbol :=
    {[ "gtk_widget_show" := mkGtkSymbol "gtk_widget_show" (3, 0) (3, 12);
       "gtk_widget_show_all" := mkGtkSymbol "gtk_widget_show_all" (3, 4) (3, 10) ]} in
  (check_available_symbol symbols true "gtk_widget_show_all" 3 12).2 = false
  ∧ check_available_symbol symbols true "gtk_widget_hide" 3 12 = ([], false).
Proof.
  intros symbols.
  destruct (check_available_symbol_true symbols true "gtk_widget_show_all" 3 12)
    as (_ & Hfalse & _).
  destruct (check_available_symbol_true symbols true "gtk_widget_hide" 3 12)
    as (_ & _ & Hnone & _).
  split.
  - apply (Hfalse (mkGtkSymbol "gtk_widget_show_all" (3, 4) (3, 10))).
    + vm_compute. reflexivity.
    + right. vm_compute. reflexivity.
  - apply Hnone. vm_compute. reflexivity.
Defined.

(** ** Shared facts on the two checks *)

Lemma check_version_cases_too_new (self : GtkSymbol) (major_version minor_version : Z) :
  version_lt (major_version, minor_version) (minimum_gtk_version self) →
  check_version self major_version minor_version = -1.
Proof.
  unfold_check. intros Hmin. split_tests; try done; lia.
Qed.

Lemma check_version_cases_deprecated (self : GtkSymbol) (major_version minor_version : Z) :
  ¬ version_lt (major_version, minor_version) (minimum_gtk_version self) →
  (maximum_gtk_version self).1 < major_version
  ∨ (maximum_gtk_version self).2 < minor_version →
  check_version self major_version minor_version = 1.
Proof.
  unfold_check. intros Hmin Hmax. split_tests; try done; lia.
Qed.

Lemma check_available_symbol_accepts (symbols : gmap string GtkSymbol)
    (hide_not_found : bool) (s : string) (major_version minor_version : Z) :
  (check_available_symbol symbols hide_not_found s major_version minor_version).2 = true
  ↔ ∃ r, symbols !! s = Some r ∧ check_version r major_version minor_version = 0.
Proof.
  unfold check_available_symbol.
  destruct (symbols !! s) as [r|] eqn:Hr.
  - pose proof (check_version_cases r major_version minor_version) as Hcases.
    split.
    + intros Hret. exists r. split; [done|].
      destruct Hcases as [H|[H|H]]; rewrite H in Hret; [done..|exact H].
    + intros (r' & [= <-] & H). by rewrite H.
  - split; [by destruct hide_not_found|]. by intros (r' & ? & _).
Qed.

(** ** More on [check_version] *)

(** When the record and the request share one major version, the answer
    is the interval test on the minors. *)
Lemma check_version_same_major (self : GtkSymbol) (major_version minor_version : Z) :
  (minimum_gtk_version self).1 = major_version →
  (maximum_gtk_version self).1 = major_version →
  (check_version self major_version minor_version = -1
   ↔ minor_version < (minimum_gtk_version self).2)
  ∧ (check_version self major_version minor_version = 0
     ↔ (minimum_gtk_version self).2 <= minor_version <= (maximum_gtk_version self).2).
Proof.
  unfold_check. intros -> ->.
  split_tests; (split; split); intros; try done; lia.
Qed.

(** Some request is answered [0] exactly when the minimum is at or below
    the maximum in both components, or has a strictly smaller major: a
    record such as (3, 4) to (3, 0) is valid for no version at all, a
    record such as (2, 4) to (3, 0) is valid at (3, 0). *)
Theorem check_version_satisfiable (self : GtkSymbol) :
  (∃ major_version minor_version,
      check_version self major_version minor_version = 0)
  ↔ ((minimum_gtk_version self).1 <= (maximum_gtk_version self).1
     ∧ (minimum_gtk_version self).2 <= (maximum_gtk_version self).2)
    ∨ (minimum_gtk_version self).1 < (maximum_gtk_version self).1.
Proof.
  split.
  - intros (M & m & Hvalid). revert Hvalid. unfold_check.
    split_tests; intros; try done; lia.
  - intros Hrange.
    destruct (decide ((minimum_gtk_version self).1 < (maximum_gtk_version self).1)).
    + exists (maximum_gtk_version self).1, (maximum_gtk_version self).2.
      revert Hrange l. unfold_check. split_tests; intros; try done; lia.
    + exists (minimum_gtk_version self).1, (minimum_gtk_version self).2.
      revert Hrange n. unfold_check. split_tests; intros; try done; lia.
Qed.

(** ** More on [check_available_symbol] *)

(** At most one line is printed, and none exactly when the symbol is
    accepted or when it is unknown and [hide_not_found] is set: every
    refusal of a known symbol is reported. *)
Theorem check_available_symbol_output (symbols : gmap string GtkSymbol)
    (hide_not_found : bool) (s : string) (major_version minor_version : Z) :
  (length (check_available_symbol symbols hide_not_found s major_version minor_version).1
   <= 1)%nat
  ∧ ((check_available_symbol symbols hide_not_found s major_version minor_version).1 = []
     ↔ (check_available_symbol symbols hide_not_found s major_version minor_version).2
       = true
       ∨ (hide_not_found = true ∧ symbols !! s = None)).
Proof.
  unfold check_available_symbol.
  destruct (symbols !! s) as [r|]; [|destruct hide_not_found]; simpl;
    repeat case_bool_decide; simpl; (split; [lia|]); split;
    try done; try (by left); try (by right); intros [?|[? ?]]; done.
Qed.

(** ** The whole database *)

Lemma same_elements_Forall {A} `{!EqDecision A} (l1 l2 : list A) :
  Forall (λ x, x ∈ l2) l1 → Forall (λ x, x ∈ l1) l2 → ∀ x, x ∈ l1 ↔ x ∈ l2.
Proof. rewrite !Forall_forall. intros H1 H2 x. split; auto. Qed.

Section DatabaseFacts.

Context (source_dir : string)
        (parse_symbol_html : string → list string)
        (parse_object_html : string → list string * list string)
        (gtk_major_version : Z).

#[local] Abbreviation available_listing :=
  (available_listing source_dir parse_symbol_html parse_object_html).
#[local] Abbreviation deprecated_listing :=
  (deprecated_listing source_dir parse_symbol_html parse_object_html).
#[local] Abbreviation first_available :=
  (first_available source_dir parse_symbol_html parse_object_html).
#[local] Abbreviation oldest_deprecated :=
  (oldest_deprecated source_dir parse_symbol_html parse_object_html).
#[local] Abbreviation final_record :=
  (final_record source_dir parse_symbol_html parse_object_html gtk_major_version).
#[local] Abbreviation get_symbols :=
  (get_symbols source_dir parse_symbol_html parse_object_html gtk_major_version).
#[local] Abbreviation introduction_pass :=
  (introduction_pass source_dir parse_symbol_html parse_object_html).

Lemma first_available_earliest (s : string) (v : Z) :
  first_available s = Some v ↔ earliest available_listing s v.
Proof.
  split.
  - intros Hfirst.
    pose proof (head_filter_Some _ _ _ Hfirst) as [? ?].
    pose proof (head_filter_Some_least _ _ _ known_minors_sorted Hfirst).
    by repeat split.
  - intros (? & ? & ?). by apply first_available_least.
Qed.

Lemma oldest_deprecated_earliest (s : string) (v : Z) :
  oldest_deprecated s = Some v ↔ earliest deprecated_listing s v.
Proof.
  split.
  - intros Hfirst.
    pose proof (head_filter_Some _ _ _ Hfirst) as [? ?].
    pose proof (head_filter_Some_least _ _ _ known_minors_sorted Hfirst).
    by repeat split.
  - intros (? & ? & ?). by apply oldest_deprecated_least.
Qed.

Lemma first_available_unlisted (s : string) :
  first_available s = None ↔ unlisted available_listing s.
Proof. apply first_available_None. Qed.

Lemma oldest_deprecated_unlisted (s : string) :
  oldest_deprecated s = None ↔ unlisted deprecated_listing s.
Proof. apply oldest_deprecated_None. Qed.

(** A name has a record exactly when the available or the deprecated
    listing of one of the seven releases contains it. *)
Theorem record_iff_listed :
  ∃ symbols,
    get_symbols = Some symbols
    ∧ ∀ s, is_Some (symbols !! s)
           ↔ ∃ v, v ∈ known_minors
                  ∧ (s ∈ available_listing v ∨ s ∈ deprecated_listing v).
Proof.
  destruct (get_symbols_lookup source_dir parse_symbol_html parse_object_html
              gtk_major_version) as (symbols & Hget & Hlookup).
  exists symbols. split; [exact Hget|]. intros s.
  rewrite Hlookup. unfold final_record.
  destruct (first_available s) as [va|] eqn:Hfirst;
    destruct (oldest_deprecated s) as [vd|] eqn:Holdest; simpl.
  - apply first_available_earliest in Hfirst as (? & ? & _).
    split; [|by eauto]. intros _. exists va. auto.
  - apply first_available_earliest in Hfirst as (? & ? & _).
    split; [|by eauto]. intros _. exists va. auto.
  - apply oldest_deprecated_earliest in Holdest as (? & ? & _).
    split; [|by eauto]. intros _. exists vd. auto.
  - apply (proj1 (first_available_unlisted _)) in Hfirst.
    apply (proj1 (oldest_deprecated_unlisted _)) in Holdest.
    split; [by intros [? ?]|]. intros (v & Hv & [?|?]).
    + by destruct (Hfirst v Hv).
    + by destruct (Holdest v Hv).
Qed.

(** Every record of the finished database is stored under its own name;
    its minimum is the oldest release that lists the name as available,
    or [(gtk_major_version, 0)] when none does; its maximum is the oldest
    release that lists the name as deprecated, or (3, 12) when none
    does. *)
Theorem record_shape :
  ∃ symbols,
    get_symbols = Some symbols
    ∧ ∀ k r, symbols !! k = Some r →
        symbol_name r = k
        ∧ ((∃ v, earliest available_listing k v ∧ minimum_gtk_version r = (3, v))
           ∨ (unlisted available_listing k
              ∧ minimum_gtk_version r = (gtk_major_version, 0)))
        ∧ ((∃ v, earliest deprecated_listing k v ∧ maximum_gtk_version r = (3, v))
           ∨ (unlisted deprecated_listing k ∧ maximum_gtk_version r = (3, 12))).
Proof.
  destruct (get_symbols_lookup source_dir parse_symbol_html parse_object_html
              gtk_major_version) as (symbols & Hget & Hlookup).
  exists symbols. split; [exact Hget|]. intros k r Hr.
  rewrite Hlookup in Hr.
  split; [exact (final_record_name source_dir parse_symbol_html parse_object_html
                   gtk_major_version k r Hr)|].
  unfold final_record in Hr.
  destruct (first_available k) as [va|] eqn:Hfirst;
    destruct (oldest_deprecated k) as [vd|] eqn:Holdest;
    simpl in Hr; [injection Hr as <-..|discriminate Hr]; simpl.
  - apply first_available_earliest in Hfirst.
    apply oldest_deprecated_earliest in Holdest.
    split; left; eauto.
  - apply first_available_earliest in Hfirst.
    apply (proj1 (oldest_deprecated_unlisted _)) in Holdest.
    split; [left|right]; eauto.
  - apply (proj1 (first_available_unlisted _)) in Hfirst.
    apply oldest_deprecated_earliest in Holdest.
    split; [right|left]; eauto.
Qed.

(** The deprecation pass only ever rewrites maxima: a record of the
    introduction pass is still there at the end, under the same name and
    with the same minimum, and it is untouched when no deprecated listing
    names the symbol. *)
Theorem deprecation_keeps_minimum (s : string)
    (symbols0 : gmap string GtkSymbol) (r0 : GtkSymbol) :
  introduction_pass = Some symbols0 → symbols0 !! s = Some r0 →
  ∃ symbols r,
    get_symbols = Some symbols ∧ symbols !! s = Some r
    ∧ symbol_name r = symbol_name r0
    ∧ minimum_gtk_version r = minimum_gtk_version r0
    ∧ (unlisted deprecated_listing s → r = r0).
Proof.
  intros Hpass Hr0.
  destruct (introduction_pass_lookup source_dir parse_symbol_html parse_object_html)
    as (symbols0' & Hpass' & Hlookup0).
  rewrite Hpass in Hpass'. injection Hpass' as <-.
  destruct (get_symbols_lookup source_dir parse_symbol_html parse_object_html
              gtk_major_version) as (symbols & Hget & Hlookup).
  exists symbols. specialize (Hlookup s). unfold final_record in Hlookup.
  rewrite <-Hlookup0, Hr0 in Hlookup.
  destruct (oldest_deprecated s) as [vd|] eqn:Holdest; simpl in Hlookup.
  - eexists. split; [exact Hget|]. split; [exact Hlookup|].
    split; [reflexivity|]. split; [reflexivity|].
    intros Hnever. apply (proj2 (oldest_deprecated_unlisted _)) in Hnever. congruence.
  - exists r0. split; [exact Hget|]. split; [exact Hlookup|]. auto.
Qed.

(** A request below the release that first lists the symbol is refused
    with the line that names that release. *)
Theorem too_new_report (s : string) (v : Z) (hide_not_found : bool)
    (major_version minor_version : Z) :
  earliest available_listing s v →
  version_lt (major_version, minor_version) (3, v) →
  ∃ symbols,
    get_symbols = Some symbols
    ∧ check_available_symbol symbols hide_not_found s major_version minor_version
      = (["Symbol [" +:+ s +:+ "] was introduced in GTK " +:+ str_version (3, v)],
         false).
Proof.
  intros Hearliest Hlt. apply first_available_earliest in Hearliest.
  destruct (get_symbols_lookup source_dir parse_symbol_html parse_object_html
              gtk_major_version) as (symbols & Hget & Hlookup).
  exists symbols. split; [exact Hget|].
  specialize (Hlookup s). unfold final_record in Hlookup.
  rewrite Hearliest in Hlookup. simpl in Hlookup.
  unfold check_available_symbol.
  destruct (oldest_deprecated s); simpl in Hlookup; rewrite Hlookup;
    match goal with
    | |- context [check_version ?r _ _] =>
        assert (check_version r major_version minor_version = -1) as ->
          by (by apply check_version_cases_too_new)
    end; reflexivity.
Qed.

(** A request that is not below the record's minimum, and whose major is
    above 3 or whose minor is above the oldest release that lists the
    symbol as deprecated, is refused with the line that names that
    release. *)
Theorem deprecated_report (s : string) (v : Z) (hide_not_found : bool)
    (major_version minor_version : Z)
    (symbols : gmap string GtkSymbol) (r : GtkSymbol) :
  get_symbols = Some symbols → symbols !! s = Some r →
  earliest deprecated_listing s v →
  ¬ version_lt (major_version, minor_version) (minimum_gtk_version r) →
  3 < major_version ∨ v < minor_version →
  check_available_symbol symbols hide_not_found s major_version minor_version
  = (["Symbol [" +:+ s +:+ "] has been deprecated since GTK " +:+ str_version (3, v)],
     false).
Proof.
  intros Hget Hr Hearliest Hmin Hmax.
  apply oldest_deprecated_earliest in Hearliest.
  destruct (get_symbols_lookup source_dir parse_symbol_html parse_object_html
              gtk_major_version) as (symbols' & Hget' & Hlookup).
  rewrite Hget in Hget'. injection Hget' as <-. clear Hget.
  assert (maximum_gtk_version r = (3, v)) as Hrmax.
  { rewrite Hlookup in Hr. unfold final_record in Hr. rewrite Hearliest in Hr.
    destruct (first_available s); simpl in Hr; injection Hr as <-; reflexivity. }
  assert (check_version r major_version minor_version = 1) as Hcheck.
  { apply check_version_cases_deprecated; [done|]. rewrite Hrmax. simpl. lia. }
  unfold check_available_symbol. rewrite Hr, Hcheck. simpl.
  unfold get_max. by rewrite Hrmax.
Qed.

(** A symbol that is listed as deprecated in a release older than the
    first release that lists it as available is refused at every version:
    no request is valid for its inverted range. *)
Theorem inverted_range_always_refused (s : string) (va vd : Z)
    (hide_not_found : bool) (major_version minor_version : Z) :
  earliest available_listing s va → earliest deprecated_listing s vd →
  vd < va →
  ∃ symbols,
    get_symbols = Some symbols
    ∧ (check_available_symbol symbols hide_not_found s major_version minor_version).2
      = false.
Proof.
  intros Ha Hd Hlt.
  apply first_available_earliest in Ha. apply oldest_deprecated_earliest in Hd.
  destruct (get_symbols_lookup source_dir parse_symbol_html parse_object_html
              gtk_major_version) as (symbols & Hget & Hlookup).
  exists symbols. split; [exact Hget|]. clear Hget.
  specialize (Hlookup s). unfold final_record in Hlookup.
  rewrite Ha, Hd in Hlookup. simpl in Hlookup.
  destruct (check_available_symbol symbols hide_not_found s
              major_version minor_version).2 eqn:Hret; [|reflexivity].
  apply check_available_symbol_accepts in Hret as (r & Hr & Hvalid).
  rewrite Hlookup in Hr. injection Hr as <-. clear Hlookup Ha Hd.
  revert Hvalid. unfold check_version, set_maximum_gtk_version. simpl.
  split_tests; intros; try discriminate; lia.
Qed.

(** With the global [gtk_major_version] at its default 3, a request for a
    release 3.m is accepted exactly when the symbol has a record and m
    lies between the minors of its minimum and its maximum. *)
Theorem same_major_interval (symbols : gmap string GtkSymbol) (s : string)
    (hide_not_found : bool) (minor_version : Z) :
  gtk_major_version = 3 → get_symbols = Some symbols →
  (check_available_symbol symbols hide_not_found s 3 minor_version).2 = true
  ↔ ∃ r, symbols !! s = Some r
         ∧ (minimum_gtk_version r).2 <= minor_version <= (maximum_gtk_version r).2.
Proof.
  intros HgM Hget.
  destruct (get_symbols_lookup source_dir parse_symbol_html parse_object_html
              gtk_major_version) as (symbols' & Hget' & Hlookup).
  rewrite Hget in Hget'. injection Hget' as <-. clear Hget.
  assert (∀ r, symbols !! s = Some r →
               (minimum_gtk_version r).1 = 3 ∧ (maximum_gtk_version r).1 = 3) as Hmajor.
  { intros r Hr. rewrite Hlookup in Hr. unfold final_record in Hr.
    destruct (first_available s), (oldest_deprecated s);
      simpl in Hr; [injection Hr as <-..|discriminate Hr]; simpl; auto. }
  split.
  - intros (r & Hr & Hvalid)%check_available_symbol_accepts.
    exists r. split; [done|]. destruct (Hmajor r Hr) as [Hm1 Hm2].
    by apply (check_version_same_major r 3 minor_version Hm1 Hm2).
  - intros (r & Hr & Hm). apply check_available_symbol_accepts.
    exists r. split; [done|]. destruct (Hmajor r Hr) as [Hm1 Hm2].
    by apply (check_version_same_major r 3 minor_version Hm1 Hm2).
Qed.

End DatabaseFacts.

(** The global [gtk_major_version] matters for the symbols that no
    available listing contains, and for no other: two databases built from
    the same documents under two values of the global hold the same
    record for every name that some available listing contains, and have
    records for the same names. *)
Theorem gtk_major_version_only_for_unlisted
    (source_dir : string)
    (parse_symbol_html : string → list string)
    (parse_object_html : string → list string * list string)
    (gtk_major_version1 gtk_major_version2 : Z) :
  ∃ symbols1 symbols2,
    get_symbols source_dir parse_symbol_html parse_object_html gtk_major_version1
    = Some symbols1
    ∧ get_symbols source_dir parse_symbol_html parse_object_html gtk_major_version2
      = Some symbols2
    ∧ ∀ s, (is_Some (symbols1 !! s) ↔ is_Some (symbols2 !! s))
           ∧ ((∃ v, v ∈ known_minors
                    ∧ s ∈ available_listing source_dir parse_symbol_html
                            parse_object_html v)
              → symbols1 !! s = symbols2 !! s).
Proof.
  destruct (get_symbols_lookup source_dir parse_symbol_html parse_object_html
              gtk_major_version1) as (symbols1 & Hget1 & Hlookup1).
  destruct (get_symbols_lookup source_dir parse_symbol_html parse_object_html
              gtk_major_version2) as (symbols2 & Hget2 & Hlookup2).
  exists symbols1, symbols2. split; [exact Hget1|]. split; [exact Hget2|].
  intros s. rewrite Hlookup1, Hlookup2. clear Hget1 Hget2 Hlookup1 Hlookup2.
  unfold final_record.
  destruct (first_available source_dir parse_symbol_html parse_object_html s)
    as [va|] eqn:Hfirst.
  - clear Hfirst.
    destruct (oldest_deprecated source_dir parse_symbol_html parse_object_html s);
      simpl; (split; [split; intros _; eexists; reflexivity|reflexivity]).
  - apply first_available_unlisted in Hfirst.
    assert (¬ ∃ v, v ∈ known_minors
                   ∧ s ∈ available_listing source_dir parse_symbol_html
                           parse_object_html v) as Hnone
      by (intros (v & Hv & Hs); exact (Hfirst v Hv Hs)).
    destruct (oldest_deprecated source_dir parse_symbol_html parse_object_html s);
      simpl; (split; [|intros Hsome; destruct (Hnone Hsome)]).
    + split; intros _; eexists; reflexivity.
    + reflexivity.
Qed.

(** Only the set of names of each listing matters, neither their order nor
    their repetitions: two constructions whose listings contain the same
    names, release by release, return the same database. *)
Theorem get_symbols_listing_sets
    (source_dir1 source_dir2 : string)
    (parse_symbol_html1 parse_symbol_html2 : string → list string)
    (parse_object_html1 parse_object_html2 : string → list string * list string)
    (gtk_major_version : Z) :
  (∀ v, v ∈ known_minors →
        (∀ s, s ∈ available_listing source_dir1 parse_symbol_html1 parse_object_html1 v
              ↔ s ∈ available_listing source_dir2 parse_symbol_html2 parse_object_html2 v)
        ∧ (∀ s, s ∈ deprecated_listing source_dir1 parse_symbol_html1 parse_object_html1 v
                ↔ s ∈ deprecated_listing source_dir2 parse_symbol_html2
                        parse_object_html2 v)) →
  ∃ symbols,
    get_symbols source_dir1 parse_symbol_html1 parse_object_html1 gtk_major_version
    = Some symbols
    ∧ get_symbols source_dir2 parse_symbol_html2 parse_object_html2 gtk_major_version
      = Some symbols.
Proof.
  intros Hsame.
  destruct (get_symbols_lookup source_dir1 parse_symbol_html1 parse_object_html1
              gtk_major_version) as (symbols1 & Hget1 & Hlookup1).
  destruct (get_symbols_lookup source_dir2 parse_symbol_html2 parse_object_html2
              gtk_major_version) as (symbols2 & Hget2 & Hlookup2).
  exists symbols1. split; [exact Hget1|].
  rewrite Hget2. f_equal. apply map_eq. intros s.
  rewrite Hlookup1, Hlookup2. unfold final_record, first_available, oldest_deprecated.
  rewrite (filter_ext_elem_of
             (λ v, s ∈ available_listing source_dir1 parse_symbol_html1 parse_object_html1 v)
             (λ v, s ∈ available_listing source_dir2 parse_symbol_html2 parse_object_html2 v))
    by (intros v Hv; apply (Hsame v Hv)).
  rewrite (filter_ext_elem_of
             (λ v, s ∈ deprecated_listing source_dir1 parse_symbol_html1 parse_object_html1 v)
             (λ v, s ∈ deprecated_listing source_dir2 parse_symbol_html2 parse_object_html2 v))
    by (intros v Hv; apply (Hsame v Hv)).
  reflexivity.
Qed.

(** ** The paths of the documents *)

Lemma app_cons (c : ascii) (a b : string) : String c a +:+ b = String c (a +:+ b).
Proof. reflexivity. Qed.

Lemma app_assoc_string (a b c : string) : (a +:+ b) +:+ c = a +:+ (b +:+ c).
Proof. induction a as [|x a IH]; [done|]. by rewrite !app_cons, IH. Qed.

Lemma app_empty_inv (a b : string) : a +:+ b = "" → b = "".
Proof. destruct a; [done|]. by rewrite app_cons. Qed.

Lemma prefix_slash_cons (c : ascii) (s : string) :
  String.prefix "/" (String c s) = bool_decide (c = "/"%char).
Proof.
  change (String.prefix "/" (String c s))
    with (match ascii_dec "/" c with
          | left _ => String.prefix "" s
          | right _ => false
          end).
  destruct (ascii_dec "/" c) as [<-|Hne].
  - by destruct s.
  - by rewrite bool_decide_eq_false_2.
Qed.

Lemma prefix_slash_app (a b : string) :
  a ≠ "" → String.prefix "/" (a +:+ b) = String.prefix "/" a.
Proof.
  destruct a as [|c a]; [done|]. intros _.
  by rewrite app_cons, !prefix_slash_cons.
Qed.

Lemma rev_app_app (a b acc : string) :
  String.rev_app (a +:+ b) acc = String.rev_app b (String.rev_app a acc).
Proof.
  revert acc. induction a as [|x a IH]; intros acc; [done|].
  rewrite app_cons. simpl. apply IH.
Qed.

Lemma rev_app_head (b acc : string) :
  b ≠ "" →
  String.prefix "/" (String.rev_app b acc) = String.prefix "/" (String.rev_app b "").
Proof.
  revert acc. induction b as [|c b IH]; intros acc Hb; [done|].
  cbn [String.rev_app]. destruct (decide (b = "")) as [->|Hne].
  - cbn [String.rev_app]. by rewrite !prefix_slash_cons.
  - rewrite (IH (String c acc)), (IH (String c "")); done.
Qed.

(** Whether a path ends in the separator depends on its last component
    only. *)
Lemma ends_in_slash_app (a b : string) :
  b ≠ "" →
  String.prefix "/" (String.rev (a +:+ b)) = String.prefix "/" (String.rev b).
Proof.
  intros Hb. unfold String.rev. rewrite rev_app_app. by apply rev_app_head.
Qed.

Lemma path_join_relative (a b : string) :
  String.prefix "/" b = false → path_join a b = with_separator a +:+ b.
Proof.
  intros Hb. unfold path_join, with_separator. rewrite Hb.
  destruct (bool_decide (a = "") || String.prefix "/" (String.rev a)); [done|].
  by rewrite app_assoc_string.
Qed.

Lemma path_join_below (a b c : string) :
  b ≠ "" → String.prefix "/" (String.rev b) = false → String.prefix "/" c = false →
  path_join (a +:+ b) c = a +:+ (b +:+ "/" +:+ c).
Proof.
  intros Hb Hend Hc. rewrite path_join_relative by done.
  unfold with_separator. rewrite ends_in_slash_app, Hend by done.
  rewrite bool_decide_eq_false_2; [simpl|].
  - by rewrite !app_assoc_string.
  - intros Happ. by apply app_empty_inv in Happ.
Qed.

Lemma path_join_all_relative (a p1 p2 p3 p4 : string) :
  p1 ≠ "" → p2 ≠ "" → p3 ≠ "" →
  String.prefix "/" p1 = false → String.prefix "/" p2 = false →
  String.prefix "/" p3 = false → String.prefix "/" p4 = false →
  String.prefix "/" (String.rev p1) = false →
  String.prefix "/" (String.rev p2) = false →
  String.prefix "/" (String.rev p3) = false →
  path_join_all a [p1; p2; p3; p4]
  = with_separator a +:+ (p1 +:+ "/" +:+ p2 +:+ "/" +:+ p3 +:+ "/" +:+ p4).
Proof.
  intros Hp1 Hp2 Hp3 ? ? ? ? ? ? ?. unfold path_join_all. cbn [foldl].
  assert (∀ b c, b ≠ "" → c ≠ "" → b +:+ "/" +:+ c ≠ ""
                 ∧ String.prefix "/" (String.rev (b +:+ "/" +:+ c))
                   = String.prefix "/" (String.rev c)) as Hbelow.
  { intros b c Hb Hc. split.
    - destruct b; [done|]. by rewrite app_cons.
    - rewrite ends_in_slash_app; [by rewrite ends_in_slash_app|].
      intros Happ. by apply app_empty_inv in Happ. }
  rewrite (path_join_relative a p1) by done.
  rewrite (path_join_below _ p1 p2) by done.
  destruct (Hbelow p1 p2 Hp1 Hp2) as [Hne2 Hend2].
  rewrite (path_join_below _ (p1 +:+ "/" +:+ p2) p3) by (by rewrite ?Hend2).
  destruct (Hbelow (p1 +:+ "/" +:+ p2) p3 Hne2 Hp3) as [Hne3 Hend3].
  rewrite (path_join_below _ ((p1 +:+ "/" +:+ p2) +:+ "/" +:+ p3) p4)
    by (by rewrite ?Hend3).
  by rewrite !app_assoc_string.
Qed.

Ltac path_side := vm_compute; first [reflexivity | intros [=]].

Ltac known_document Hv Hf :=
  unfold known_minors in Hv; unfold api_filenames in Hf;
  repeat (apply elem_of_cons in Hv as [->|Hv]); [..|by apply elem_of_nil in Hv];
  (repeat (apply elem_of_cons in Hf as [->|Hf]); [..|by apply elem_of_nil in Hf]).

(** The file whose presence [check_api_versions] tests is the file the
    listing later parses: for each document of each release,
    [os.path.join] of the five components and [os.path.join] of the
    directory with the path written out give the same name, whatever the
    working directory. *)
Theorem api_document_is_document (source_dir : string) :
  Forall (λ v,
            Forall (λ filename,
                      api_document source_dir 3 v filename
                      = document source_dir (version_key 3 v) filename)
              api_filenames)
    known_minors.
Proof.
  rewrite Forall_forall. intros v Hv. rewrite Forall_forall. intros filename Hf.
  unfold api_document, document.
  known_document Hv Hf;
    (rewrite path_join_all_relative by path_side);
    (rewrite path_join_relative by path_side); reflexivity.
Qed.

Lemma download_target_document (source_dir : string) (v : Z) (filename : string) :
  String.prefix "/" source_dir = true →
  v ∈ known_minors → filename ∈ api_filenames →
  download_target source_dir 3 v filename = api_document source_dir 3 v filename.
Proof.
  intros Habs Hv Hf.
  assert (source_dir ≠ "") as Hne by (by intros ->).
  assert (∀ b, String.prefix "/" (with_separator source_dir +:+ b) = true) as Hstart.
  { intros b. unfold with_separator.
    destruct (bool_decide (source_dir = "") || String.prefix "/" (String.rev source_dir)).
    - by rewrite prefix_slash_app.
    - rewrite app_assoc_string. by rewrite prefix_slash_app. }
  unfold download_target, local_filename, download_dir, api_document.
  known_document Hv Hf;
    (rewrite path_join_all_relative by path_side);
    match goal with
    | |- context [path_join source_dir (?d +:+ ?k)] =>
        rewrite (path_join_relative source_dir (d +:+ k)) by path_side
    end;
    (rewrite path_join_below by path_side);
    unfold path_join at 1; rewrite Hstart; reflexivity.
Qed.

(** In an absolute working directory, as [os.getcwd] returns it, the file
    a download writes is the file whose presence was tested. *)
Theorem download_target_is_api_document (source_dir : string) :
  String.prefix "/" source_dir = true →
  Forall (λ v,
            Forall (λ filename,
                      download_target source_dir 3 v filename
                      = api_document source_dir 3 v filename)
              api_filenames)
    known_minors.
Proof.
  intros Habs. rewrite Forall_forall. intros v Hv.
  rewrite Forall_forall. intros filename Hf.
  by apply download_target_document.
Qed.

Lemma download_target_is_api_document_witness :
  Forall (λ v,
            Forall (λ filename,
                      download_target "/home/user/project" 3 v filename
                      = api_document "/home/user/project" 3 v filename)
              api_filenames)
    known_minors.
Proof.
  apply (download_target_is_api_document "/home/user/project"). reflexivity.
Defined.

(** ** Which documents are on disk *)

Lemma existsb_negb_true {A} (g : A → bool) (l : list A) :
  existsb (λ x, negb (g x)) l = true ↔ ∃ x, x ∈ l ∧ g x = false.
Proof.
  induction l as [|a l IH]; simpl.
  - split; [done|]. intros (x & Hx & _). by apply elem_of_nil in Hx.
  - rewrite orb_true_iff, IH, negb_true_iff. split.
    + intros [Ha|(x & Hx & Hg)]; [exists a|exists x]; split; auto; by constructor.
    + intros (x & [->|Hx]%elem_of_cons & Hg); [by left|right; eauto].
Qed.

Lemma existsb_negb_false {A} (g : A → bool) (l : list A) :
  existsb (λ x, negb (g x)) l = false ↔ ∀ x, x ∈ l → g x = true.
Proof.
  rewrite <-not_true_iff_false, existsb_negb_true. split.
  - intros Hnone x Hx. destruct (g x) eqn:Hg; [done|]. destruct Hnone; eauto.
  - intros Hall (x & Hx & Hg). rewrite (Hall x Hx) in Hg. discriminate Hg.
Qed.

Section ApiFacts.

Context (source_dir : string) (path_exists : string → bool).

#[local] Abbreviation api_document := (api_document source_dir).
#[local] Abbreviation check_api_versions_loop :=
  (check_api_versions_loop source_dir path_exists).
#[local] Abbreviation check_api_versions := (check_api_versions source_dir path_exists).
#[local] Abbreviation incomplete :=
  (λ v, existsb (λ filename, negb (path_exists (api_document 3 v filename)))
          api_filenames = true).

Lemma check_api_versions_loop_step vM vm vm' :
  vm <= 12 → vm' = vm + 2 →
  check_api_versions_loop vM vm
  = if existsb (λ filename, negb (path_exists (api_document vM vm filename)))
         api_filenames
    then (vM, vm) else check_api_versions_loop vM vm'.
Proof.
  intros ? ->. match goal with |- _ = ?r => set (R := r) end.
  simp check_api_versions_loop.
  destruct (decide (vm <= 12)); simpl; [done|lia].
Qed.

Lemma check_api_versions_loop_exit vM vm :
  12 < vm → check_api_versions_loop vM vm = (vM, vm).
Proof.
  intros ?. simp check_api_versions_loop.
  destruct (decide (vm <= 12)); simpl; [lia|done].
Qed.

Ltac next_release v v' :=
  rewrite (check_api_versions_loop_step 3 v v') by lia;
  let H := fresh "Hv" in
  destruct (existsb _ api_filenames) eqn:H;
  [by rewrite filter_cons_True by exact H|];
  rewrite filter_cons_False by (by rewrite H); clear H.

(** The answer is the oldest release with a document missing, and 3.14
    when there is none. *)
Lemma check_api_versions_unrolled :
  check_api_versions
  = from_option (λ v, (3, v)) (3, 14) (head (filter incomplete known_minors)).
Proof.
  unfold check_api_versions, known_minors.
  next_release 0 2. next_release 2 4. next_release 4 6. next_release 6 8.
  next_release 8 10. next_release 10 12. next_release 12 14.
  by rewrite check_api_versions_loop_exit by lia.
Qed.

(** The answer is 3.[v] for the oldest release [v] of the series that
    lacks a document, and 3.14 when there is none. *)
Lemma check_api_versions_oldest :
  ∃ v, check_api_versions = (3, v)
       ∧ (v ∈ known_minors ∨ v = 14)
       ∧ (v ∈ known_minors →
          ∃ filename, filename ∈ api_filenames
                      ∧ path_exists (api_document 3 v filename) = false)
       ∧ ∀ v' filename, v' ∈ known_minors → v' < v → filename ∈ api_filenames →
                        path_exists (api_document 3 v' filename) = true.
Proof.
  rewrite check_api_versions_unrolled.
  destruct (head (filter incomplete known_minors)) as [v|] eqn:Hhead; simpl.
  - exists v.
    pose proof (head_filter_Some incomplete _ _ Hhead) as [Hv Hmissing].
    pose proof (head_filter_Some_least incomplete _ _ known_minors_sorted Hhead)
      as Hleast.
    split; [done|]. split; [by left|]. split.
    + intros _. by apply existsb_negb_true.
    + intros v' filename Hv' Hlt Hf.
      destruct (existsb (λ filename, negb (path_exists (api_document 3 v' filename)))
                  api_filenames) eqn:Hv'c.
      * specialize (Hleast v' Hv' Hv'c). lia.
      * by apply (proj1 (existsb_negb_false _ _) Hv'c).
  - exists 14. split; [done|]. split; [by right|]. split.
    + intros Hv. apply known_minors_nonneg in Hv. lia.
    + intros v filename Hv _ Hf.
      apply (proj1 (head_filter_None incomplete _)) with (v := v) in Hhead; [|done].
      apply not_true_is_false in Hhead.
      by apply (proj1 (existsb_negb_false _ _) Hhead).
Qed.

(** [check_api_versions] answers (3, 14), beyond the series, when all
    twenty-one documents are on disk; otherwise it answers the oldest
    release that lacks a document, every older release being complete. *)
Theorem check_api_versions_result :
  (check_api_versions = (3, 14)
   ∧ ∀ v filename, v ∈ known_minors → filename ∈ api_filenames →
                   path_exists (api_document 3 v filename) = true)
  ∨ (∃ v, v ∈ known_minors
          ∧ check_api_versions = (3, v)
          ∧ (∃ filename, filename ∈ api_filenames
                         ∧ path_exists (api_document 3 v filename) = false)
          ∧ ∀ v' filename, v' ∈ known_minors → v' < v → filename ∈ api_filenames →
                           path_exists (api_document 3 v' filename) = true).
Proof.
  destruct check_api_versions_oldest as (v & Hanswer & [Hv| ->] & Hmissing & Hbefore).
  - right. exists v. split; [exact Hv|]. split; [exact Hanswer|].
    split; [by apply Hmissing|exact Hbefore].
  - left. split; [exact Hanswer|]. intros v filename Hv Hf.
    apply Hbefore; [exact Hv| |exact Hf]. apply known_minors_nonneg in Hv. lia.
Qed.

End ApiFacts.

(** ** Scanning the project *)

Lemma endswith_cons (c : ascii) (s suffix : string) :
  endswith s suffix = true → endswith (String c s) suffix = true.
Proof. intros H. cbn [endswith]. rewrite H. apply orb_true_r. Qed.

Lemma endswith_app (a b suffix : string) :
  endswith b suffix = true → endswith (a +:+ b) suffix = true.
Proof.
  intros Hb. induction a as [|c a IH]; [done|].
  rewrite app_cons. by apply endswith_cons.
Qed.

Lemma path_join_endswith (root filename suffix : string) :
  endswith filename suffix = true →
  endswith (path_join root filename) suffix = true.
Proof.
  intros Hf. unfold path_join. repeat case_match; auto using endswith_app.
Qed.

Lemma elem_of_append_new (symbols : list string) (symbol x : string) :
  x ∈ append_new symbols symbol ↔ x ∈ symbols ∨ x = symbol.
Proof.
  unfold append_new. case_decide as Hin.
  - split; [auto|]. by intros [?| ->].
  - rewrite elem_of_app, list_elem_of_singleton. done.
Qed.

Lemma NoDup_append_new (symbols : list string) (symbol : string) :
  NoDup symbols → NoDup (append_new symbols symbol).
Proof.
  intros Hnd. unfold append_new. case_decide as Hin; [done|].
  apply NoDup_app. split; [done|]. split; [|apply NoDup_singleton].
  intros x Hx ->%list_elem_of_singleton. done.
Qed.

Lemma elem_of_foldl_append_new (found symbols : list string) (x : string) :
  x ∈ foldl append_new symbols found ↔ x ∈ symbols ∨ x ∈ found.
Proof.
  revert symbols. induction found as [|y found IH]; intros symbols; simpl.
  - split; [auto|]. intros [?|Hx]; [done|]. by apply elem_of_nil in Hx.
  - rewrite IH, elem_of_append_new, elem_of_cons. tauto.
Qed.

Lemma NoDup_foldl_append_new (found symbols : list string) :
  NoDup symbols → NoDup (foldl append_new symbols found).
Proof.
  revert symbols. induction found as [|y found IH]; intros symbols Hnd; simpl; [done|].
  by apply IH, NoDup_append_new.
Qed.

Section ScanFacts.

Context (walk : string → list (string * list string * list string))
        (readlines : string → option (list string))
        (strip : string → string)
        (split_whitespace : string → list string).

#[local] Abbreviation get_filenames := (Scan.get_filenames walk).
#[local] Abbreviation parse_c_file :=
  (Scan.parse_c_file readlines strip split_whitespace).
#[local] Abbreviation parse_glade_file := (Scan.parse_glade_file readlines).
#[local] Abbreviation scan_symbols :=
  (Scan.get_symbols walk readlines strip split_whitespace).

(** *** get_filenames *)

Lemma get_filenames_files (root : string) (files source_files : list string) :
  foldl (λ source_files filename,
           if endswith filename ".c" || endswith filename ".h"
              || endswith filename ".glade" || endswith filename ".ui"
           then source_files ++ [path_join root filename]
           else source_files)
    source_files files
  = source_files
    ++ (path_join root
          <$> filter (λ filename, is_c_file filename || is_glade_file filename) files).
Proof.
  revert source_files. induction files as [|filename files IH]; intros source_files.
  - by rewrite app_nil_r.
  - cbn [foldl]. rewrite IH.
    assert (endswith filename ".c" || endswith filename ".h"
            || endswith filename ".glade" || endswith filename ".ui"
            = is_c_file filename || is_glade_file filename) as ->
      by (unfold is_c_file, is_glade_file; by rewrite orb_assoc).
    destruct (is_c_file filename || is_glade_file filename) eqn:Hext.
    + rewrite filter_cons_True by (by rewrite Hext).
      by rewrite fmap_cons, <-app_assoc.
    + by rewrite filter_cons_False by (rewrite Hext; exact id).
Qed.

(** The files are listed directory by directory, in the order of the
    walk, each directory contributing its files with one of the four
    extensions in the order they are listed. *)
Lemma get_filenames_unfolded (source_dir : string) :
  get_filenames source_dir
  = walk source_dir
    ≫= (λ '(root, dirs, files),
          path_join root
            <$> filter (λ filename, is_c_file filename || is_glade_file filename) files).
Proof.
  unfold Scan.get_filenames.
  assert (∀ (triples : list (string * list string * list string))
            (source_files : list string),
            foldl (λ source_files '(root, dirs, files),
                     foldl (λ source_files filename,
                              if endswith filename ".c" || endswith filename ".h"
                                 || endswith filename ".glade" || endswith filename ".ui"
                              then source_files ++ [path_join root filename]
                              else source_files)
                       source_files files)
              source_files triples
            = source_files
              ++ (triples
                  ≫= (λ '(root, dirs, files),
                        path_join root
                          <$> filter (λ filename, is_c_file filename || is_glade_file filename)
                                files))) as Hgen.
  { induction triples as [|[[root dirs] files] triples IH]; intros source_files.
    - by rewrite app_nil_r.
    - cbn [foldl]. rewrite IH, get_filenames_files, bind_cons. by rewrite <-app_assoc. }
  apply (Hgen (walk source_dir) []).
Qed.

Lemma get_filenames_kept (source_dir f : string) :
  f ∈ get_filenames source_dir → is_c_file f || is_glade_file f = true.
Proof.
  rewrite get_filenames_unfolded. intros Hf.
  apply list_elem_of_bind in Hf as ([[root dirs] files] & Hf & _).
  apply list_elem_of_fmap in Hf as (filename & -> & Hin).
  apply list_elem_of_filter in Hin as [Hext _].
  apply Is_true_true in Hext. unfold is_c_file, is_glade_file in *.
  repeat (apply orb_true_iff in Hext as [Hext|Hext]);
    rewrite (path_join_endswith _ _ _ Hext); by rewrite ?orb_true_r.
Qed.

(** Every path [get_filenames] returns ends in [.c], [.h], [.glade] or
    [.ui], whatever the directory it was joined to. *)
Theorem get_filenames_extensions (source_dir : string) :
  Forall (λ filename, is_c_file filename || is_glade_file filename = true)
    (get_filenames source_dir).
Proof.
  rewrite Forall_forall. intros filename Hf. by apply (get_filenames_kept source_dir).
Qed.

(** *** get_symbols *)

(** The parser [get_symbols] sends a file to. *)
#[local] Abbreviation parser :=
  (λ filename, if is_c_file filename then parse_c_file filename
               else parse_glade_file filename).

#[local] Abbreviation scan_file :=
  (λ (symbols : option (list string)) (filename : string),
     symbols ← symbols;
     if endswith filename ".c" || endswith filename ".h" then
       found ← parse_c_file filename;
       Some (foldl append_new symbols found)
     else if endswith filename ".glade" || endswith filename ".ui" then
       found ← parse_glade_file filename;
       Some (foldl append_new symbols found)
     else Some symbols).

Lemma scan_files_raised (filenames : list string) :
  foldl scan_file None filenames = None.
Proof. by induction filenames. Qed.

Lemma scan_file_parser (symbols : list string) (filename : string) :
  is_c_file filename || is_glade_file filename = true →
  scan_file (Some symbols) filename
  = found ← parser filename; Some (foldl append_new symbols found).
Proof.
  unfold is_c_file, is_glade_file. intros Hext. cbn [mbind option_bind].
  destruct (endswith filename ".c" || endswith filename ".h"); [done|].
  simpl in Hext. by rewrite Hext.
Qed.

Lemma scan_files_spec (filenames : list string) (symbols : list string) :
  Forall (λ filename, is_c_file filename || is_glade_file filename = true) filenames →
  match foldl scan_file (Some symbols) filenames with
  | Some result =>
      (NoDup symbols → NoDup result)
      ∧ (∀ x, x ∈ result
              ↔ x ∈ symbols
                ∨ ∃ filename found,
                    filename ∈ filenames ∧ parser filename = Some found ∧ x ∈ found)
      ∧ Forall (λ filename, is_Some (parser filename)) filenames
  | None => ∃ filename, filename ∈ filenames ∧ parser filename = None
  end.
Proof.
  revert symbols. induction filenames as [|f filenames IH]; intros symbols Hext.
  - simpl. split; [done|]. split; [|done]. intros x. split; [auto|].
    intros [?|(f & ? & Hf & _)]; [done|]. by apply elem_of_nil in Hf.
  - apply Forall_cons in Hext as [Hf Hext]. cbn [foldl].
    rewrite (scan_file_parser symbols f Hf).
    destruct (parser f) as [found|] eqn:Hparse; cbn [mbind option_bind].
    + specialize (IH (foldl append_new symbols found) Hext).
      destruct (foldl scan_file (Some (foldl append_new symbols found)) filenames)
        as [result|].
      * destruct IH as (Hnd & Hin & Hall). split; [|split].
        -- intros ?. by apply Hnd, NoDup_foldl_append_new.
        -- intros x. rewrite Hin, elem_of_foldl_append_new. split.
           ++ intros [[?|?]|(f' & found' & ? & ? & ?)]; [by left|right..].
              ** exists f, found. split; [left|]; done.
              ** exists f', found'. split; [by right|done].
           ++ intros [?|(f' & found' & [->|?]%elem_of_cons & Hp & ?)];
                [by left; left| |right; eauto].
              rewrite Hparse in Hp. injection Hp as <-. left. by right.
        -- apply Forall_cons. split; [by rewrite Hparse|done].
      * destruct IH as (f' & ? & ?). exists f'. split; [by right|done].
    + rewrite scan_files_raised. exists f. split; [left|done].
Qed.

(** When [get_symbols] returns, every file of [get_filenames] has been
    parsed, by the parser its extension selects; the list returned has no
    repetition and holds exactly the symbols the parsers found. *)
Theorem scan_symbols_found (source_dir : string) (symbols : list string) :
  scan_symbols source_dir = Some symbols →
  NoDup symbols
  ∧ (∀ x, x ∈ symbols
          ↔ ∃ filename found,
              filename ∈ get_filenames source_dir
              ∧ parser filename = Some found ∧ x ∈ found)
  ∧ Forall (λ filename, is_Some (parser filename)) (get_filenames source_dir).
Proof.
  intros Hscan.
  pose proof (scan_files_spec (get_filenames source_dir) []
                (proj2 (Forall_forall _ _) (get_filenames_kept source_dir)))
    as Hspec.
  unfold Scan.get_symbols in Hscan. rewrite Hscan in Hspec.
  destruct Hspec as (Hnd & Hin & Hall). split; [apply Hnd, NoDup_nil_2|].
  split; [|done]. intros x. rewrite Hin. split; [|auto].
  intros [Hx|?]; [|done]. by apply elem_of_nil in Hx.
Qed.

(** [get_symbols] raises exactly when the parser of one of the files
    does. *)
Theorem scan_symbols_raises (source_dir : string) :
  scan_symbols source_dir = None
  ↔ ∃ filename, filename ∈ get_filenames source_dir ∧ parser filename = None.
Proof.
  pose proof (scan_files_spec (get_filenames source_dir) []
                (proj2 (Forall_forall _ _) (get_filenames_kept source_dir)))
    as Hspec.
  unfold Scan.get_symbols.
  destruct (foldl scan_file (Some []) (get_filenames source_dir)) as [result|].
  - destruct Hspec as (_ & _ & Hall). split; [done|].
    intros (f & Hf & Hnone). rewrite Forall_forall in Hall.
    destruct (Hall f Hf) as [? Hsome]. congruence.
  - done.
Qed.

End ScanFacts.

(** ** The report of a run *)

Lemma check_symbols_from (symbols : gmap string GtkSymbol) (hide_not_found : bool)
    (scanned printed : list string) (major_version minor_version : Z) :
  foldl (λ printed symbol,
           printed ++ (check_available_symbol symbols hide_not_found symbol
                         major_version minor_version).1)
    printed scanned
  = printed
    ++ mjoin ((λ symbol, (check_available_symbol symbols hide_not_found symbol
                            major_version minor_version).1) <$> scanned).
Proof.
  revert printed. induction scanned as [|x scanned IH]; intros printed; simpl.
  - by rewrite app_nil_r.
  - by rewrite IH, app_assoc.
Qed.

(** With [hide_not_found] the run prints what it would print without the
    flag for the scanned symbols that have a record: the flag removes the
    not-found lines and nothing else. *)
Theorem check_symbols_hide (symbols : gmap string GtkSymbol)
    (scanned : list string) (major_version minor_version : Z) :
  check_symbols symbols true scanned major_version minor_version
  = check_symbols symbols false
      (filter (λ symbol, is_Some (symbols !! symbol)) scanned)
      major_version minor_version.
Proof.
  unfold check_symbols. rewrite !check_symbols_from. simpl.
  induction scanned as [|x scanned IH]; [done|]. rewrite fmap_cons. simpl.
  destruct (symbols !! x) as [r|] eqn:Hx.
  - rewrite filter_cons_True by (by rewrite Hx). rewrite fmap_cons. simpl.
    rewrite IH. f_equal. unfold check_available_symbol. by rewrite Hx.
  - rewrite filter_cons_False by (rewrite Hx; by intros [? ?]).
    rewrite <-IH. unfold check_available_symbol. by rewrite Hx.
Qed.

(** Without the flag, the run prints one line for each scanned symbol
    that is not accepted, and nothing for the others. *)
Theorem check_symbols_count (symbols : gmap string GtkSymbol)
    (scanned : list string) (major_version minor_version : Z) :
  length (check_symbols symbols false scanned major_version minor_version)
  = length (filter (λ symbol,
                      (check_available_symbol symbols false symbol
                         major_version minor_version).2 = false)
              scanned).
Proof.
  unfold check_symbols. rewrite check_symbols_from. simpl.
  induction scanned as [|x scanned IH]; [done|]. rewrite fmap_cons. simpl.
  rewrite length_app, IH.
  assert (check_available_symbol symbols false x major_version minor_version
          = ([], true)
          ∨ ∃ line, check_available_symbol symbols false x major_version minor_version
                    = ([line], false)) as [Hx|[line Hx]].
  { unfold check_available_symbol. destruct (symbols !! x); [|eauto].
    repeat case_bool_decide; eauto. }
  - rewrite Hx. simpl. by rewrite filter_cons_False by (by rewrite Hx).
  - rewrite Hx. simpl. by rewrite filter_cons_True by (by rewrite Hx).
Qed.

(** ** The markup scanner *)

Lemma prefix_char_cons (c a : ascii) (s : string) :
  String.prefix (String c "") (String a s) = bool_decide (a = c).
Proof.
  change (String.prefix (String c "") (String a s))
    with (match ascii_dec c a with
          | left _ => String.prefix "" s
          | right _ => false
          end).
  destruct (ascii_dec c a) as [<-|Hne].
  - rewrite bool_decide_eq_true_2 by done. by destruct s.
  - by rewrite bool_decide_eq_false_2 by congruence.
Qed.

Lemma contains_char_cons (c a : ascii) (s : string) :
  contains (String a s) (String c "") = bool_decide (a = c) || contains s (String c "").
Proof. cbn [contains]. by rewrite prefix_char_cons. Qed.

Lemma split_cons_sep (sep : ascii) (s : string) :
  split sep (String sep s) = "" :: split sep s.
Proof. cbn [split]. by rewrite decide_True. Qed.

Lemma split_not_nil (sep : ascii) (s : string) :
  ∃ piece pieces, split sep s = piece :: pieces.
Proof.
  induction s as [|c s (piece & pieces & IH)]; [by eexists _, _|].
  cbn [split]. case_decide; [by eexists _, _|]. rewrite IH. by eexists _, _.
Qed.

Lemma split_cons_other (sep c : ascii) (s : string) :
  c ≠ sep →
  ∃ piece pieces,
    split sep s = piece :: pieces ∧ split sep (String c s) = String c piece :: pieces.
Proof.
  intros Hne. destruct (split_not_nil sep s) as (piece & pieces & Hs).
  exists piece, pieces. split; [done|]. cbn [split]. by rewrite decide_False, Hs.
Qed.

(** A string without the separator is its own single piece. *)
Lemma split_without (sep : ascii) (s : string) :
  contains s (String sep "") = false → split sep s = [s].
Proof.
  induction s as [|c s IH]; [done|]. rewrite contains_char_cons.
  intros [Hc Hs]%orb_false_iff. apply bool_decide_eq_false in Hc.
  destruct (split_cons_other sep c s Hc) as (piece & pieces & Hsplit & ->).
  rewrite (IH Hs) in Hsplit. by injection Hsplit as <- <-.
Qed.

(** No piece contains the separator. *)
Lemma split_pieces_without (sep : ascii) (s : string) :
  Forall (λ piece, contains piece (String sep "") = false) (split sep s).
Proof.
  induction s as [|c s IH]; [by repeat constructor|].
  destruct (decide (c = sep)) as [->|Hne].
  - rewrite split_cons_sep. by constructor.
  - destruct (split_cons_other sep c s Hne) as (piece & pieces & Hsplit & ->).
    rewrite Hsplit in IH. apply Forall_cons in IH as [Hpiece Hpieces].
    constructor; [|done]. rewrite contains_char_cons, Hpiece.
    by rewrite bool_decide_eq_false_2.
Qed.

(** There is a second piece exactly when the separator occurs. *)
Lemma split_second_None (sep : ascii) (s : string) :
  split sep s !! 1%nat = None ↔ contains s (String sep "") = false.
Proof.
  split; [|by intros ->%split_without].
  induction s as [|c s IH]; [done|]. rewrite contains_char_cons.
  destruct (decide (c = sep)) as [->|Hne].
  - rewrite split_cons_sep. destruct (split_not_nil sep s) as (? & ? & ->). done.
  - destruct (split_cons_other sep c s Hne) as (piece & pieces & Hsplit & ->).
    rewrite Hsplit in IH. intros Hnone.
    rewrite bool_decide_eq_false_2 by done. by apply IH.
Qed.

(** Cutting at the first separator. *)
Lemma split_app_sep (sep : ascii) (before rest : string) :
  contains before (String sep "") = false →
  split sep (before +:+ String sep rest) = before :: split sep rest.
Proof.
  induction before as [|c before IH]; intros Hbefore.
  - apply split_cons_sep.
  - rewrite contains_char_cons in Hbefore.
    apply orb_false_iff in Hbefore as [Hc Hbefore]. apply bool_decide_eq_false in Hc.
    rewrite app_cons.
    destruct (split_cons_other sep c (before +:+ String sep rest) Hc)
      as (piece & pieces & Hsplit & ->).
    rewrite (IH Hbefore) in Hsplit. by injection Hsplit as <- <-.
Qed.

(** What one line of markup adds: the second piece of the line, when the
    line mentions an object class. *)
Lemma parse_glade_line_second (symbols : list string) (line : string) :
  Scan.parse_glade_line symbols line
  = if contains line "object class"
    then append_new symbols <$> split quote line !! 1%nat
    else Some symbols.
Proof.
  unfold Scan.parse_glade_line. destruct (contains line "object class"); [|done].
  destruct (split quote line !! 1%nat) as [part|] eqn:Hpart; [|done].
  cbn [mbind option_bind fmap option_fmap option_map].
  pose proof (split_pieces_without quote line) as Hpieces.
  rewrite Forall_forall in Hpieces.
  rewrite (split_without quote part); [done|].
  apply Hpieces. by apply list_elem_of_lookup_2 in Hpart.
Qed.

#[local] Abbreviation glade_step :=
  (λ (symbols : option (list string)) (line : string),
     symbols ← symbols; Scan.parse_glade_line symbols line).

Lemma glade_lines_raised (lines : list string) : foldl glade_step None lines = None.
Proof. by induction lines. Qed.

Lemma glade_lines_spec (lines : list string) (symbols : list string) :
  match foldl glade_step (Some symbols) lines with
  | Some result =>
      (NoDup symbols → NoDup result)
      ∧ (∀ x, x ∈ result
              ↔ x ∈ symbols
                ∨ ∃ line, line ∈ lines ∧ contains line "object class" = true
                          ∧ split quote line !! 1%nat = Some x)
  | None =>
      ∃ line, line ∈ lines ∧ contains line "object class" = true
              ∧ contains line (String quote "") = false
  end
  ∧ (is_Some (foldl glade_step (Some symbols) lines) →
     ∀ line, line ∈ lines → contains line "object class" = true →
             contains line (String quote "") = true).
Proof.
  revert symbols. induction lines as [|line lines IH]; intros symbols.
  - cbn [foldl]. split; [split; [done|]|].
    + intros x. split; [auto|]. intros [?|(? & Hl & _)]; [done|].
      by apply elem_of_nil in Hl.
    + intros _ line Hl. by apply elem_of_nil in Hl.
  - cbn [foldl mbind option_bind]. rewrite parse_glade_line_second.
    destruct (contains line "object class") eqn:Hclass.
    + destruct (split quote line !! 1%nat) as [x0|] eqn:Hsecond;
        cbn [fmap option_fmap option_map].
      * destruct (IH (append_new symbols x0)) as [IH1 IH2]. split.
        -- destruct (foldl glade_step (Some (append_new symbols x0)) lines)
             as [result|].
           ++ destruct IH1 as [Hnd Hin]. split.
              ** intros ?. by apply Hnd, NoDup_append_new.
              ** intros x. rewrite Hin, elem_of_append_new. split.
                 --- intros [[?| ->]|(l & ? & ? & ?)]; [by left|right..].
                     +++ exists line. split; [left|]; done.
                     +++ exists l. split; [by right|done].
                 --- intros [?|(l & Hl & Hc & Hx)]; [by left; left|].
                     apply elem_of_cons in Hl as [->|Hl].
                     +++ rewrite Hsecond in Hx. injection Hx as ->. left. by right.
                     +++ right. by exists l.
           ++ destruct IH1 as (l & ? & ? & ?). exists l. split; [by right|done].
        -- intros Hsome l [->|Hl]%elem_of_cons ?; [|by apply IH2].
           destruct (contains line (String quote "")) eqn:Hq; [done|].
           apply split_second_None in Hq. congruence.
      * rewrite glade_lines_raised. split.
        -- exists line. split; [left|]. split; [done|]. by apply split_second_None.
        -- by intros [? ?].
    + destruct (IH symbols) as [IH1 IH2]. split.
      * destruct (foldl glade_step (Some symbols) lines) as [result|].
        -- destruct IH1 as [Hnd Hin]. split; [done|]. intros x. rewrite Hin. split.
           ++ intros [?|(l & ? & ? & ?)]; [by left|right].
              exists l. split; [by right|done].
           ++ intros [?|(l & Hl & Hc & Hx)]; [by left|].
              apply elem_of_cons in Hl as [->|Hl]; [congruence|].
              right. by exists l.
        -- destruct IH1 as (l & ? & ? & ?). exists l. split; [by right|done].
      * intros Hsome l [->|Hl]%elem_of_cons Hc; [congruence|by apply IH2].
Qed.

Section GladeFacts.

Context (readlines : string → option (list string)).

#[local] Abbreviation parse_glade_file := (Scan.parse_glade_file readlines).

(** [parse_glade_file] raises exactly when the file cannot be read or one
    of its lines mentions an object class and holds no double quote (the
    [IndexError] of the subscript). *)
Theorem parse_glade_file_raises (filename : string) :
  parse_glade_file filename = None
  ↔ readlines filename = None
    ∨ ∃ lines line,
        readlines filename = Some lines ∧ line ∈ lines
        ∧ contains line "object class" = true
        ∧ contains line (String quote "") = false.
Proof.
  unfold Scan.parse_glade_file.
  destruct (readlines filename) as [lines|]; cbn [mbind option_bind].
  - destruct (glade_lines_spec lines []) as [Hspec Hquotes].
    destruct (foldl glade_step (Some []) lines) as [result|].
    + split; [done|]. intros [?|(lines' & line & [= <-] & Hl & Hc & Hq)]; [done|].
      rewrite (Hquotes ltac:(by eexists) line Hl Hc) in Hq. discriminate Hq.
    + split; [|done]. intros _. right.
      destruct Hspec as (line & ? & ? & ?). by exists lines, line.
  - split; [by left|done].
Qed.

(** When it returns, the list has no repetition; it holds exactly, for
    each line that mentions an object class, the text between the first
    and the second double quote of the line, which has no double quote in
    it. *)
Theorem parse_glade_file_symbols (filename : string) (symbols : list string) :
  parse_glade_file filename = Some symbols →
  ∃ lines,
    readlines filename = Some lines
    ∧ NoDup symbols
    ∧ (∀ x, x ∈ symbols
            ↔ ∃ line, line ∈ lines ∧ contains line "object class" = true
                      ∧ split quote line !! 1%nat = Some x)
    ∧ Forall (λ x, contains x (String quote "") = false) symbols.
Proof.
  unfold Scan.parse_glade_file.
  destruct (readlines filename) as [lines|]; cbn [mbind option_bind]; [|done].
  intros Hparse. exists lines. split; [done|].
  destruct (glade_lines_spec lines []) as [Hspec _]. rewrite Hparse in Hspec.
  destruct Hspec as [Hnd Hin].
  assert (∀ x, x ∈ symbols
               ↔ ∃ line, line ∈ lines ∧ contains line "object class" = true
                         ∧ split quote line !! 1%nat = Some x) as Hin'.
  { intros x. rewrite Hin. split; [|auto]. intros [Hx|?]; [|done].
    by apply elem_of_nil in Hx. }
  split; [apply Hnd, NoDup_nil_2|]. split; [done|].
  rewrite Forall_forall. intros x (line & _ & _ & Hsecond)%Hin'.
  pose proof (split_pieces_without quote line) as Hpieces.
  rewrite Forall_forall in Hpieces. apply Hpieces.
  by apply list_elem_of_lookup_2 in Hsecond.
Qed.

(** The class name of a line: when a line that mentions an object class
    reads [before], a double quote, [name], a double quote and the rest,
    with no double quote in [before] or [name], then [name] is among the
    symbols returned. *)
Theorem parse_glade_file_class_name (filename : string) (lines symbols : list string)
    (before name rest : string) :
  readlines filename = Some lines →
  parse_glade_file filename = Some symbols →
  before +:+ String quote (name +:+ String quote rest) ∈ lines →
  contains (before +:+ String quote (name +:+ String quote rest)) "object class" = true →
  contains before (String quote "") = false →
  contains name (String quote "") = false →
  name ∈ symbols.
Proof.
  intros Hread Hparse Hline Hclass Hbefore Hname.
  unfold Scan.parse_glade_file in Hparse. rewrite Hread in Hparse.
  cbn [mbind option_bind] in Hparse.
  destruct (glade_lines_spec lines []) as [Hspec _]. rewrite Hparse in Hspec.
  destruct Hspec as [_ Hin]. apply Hin. right.
  eexists. split; [exact Hline|]. split; [done|].
  by rewrite (split_app_sep _ _ _ Hbefore), (split_app_sep _ _ _ Hname).
Qed.

End GladeFacts.

(** ** The C scanner *)

Ltac by_not_elem :=
  rewrite !elem_of_cons, elem_of_nil; intros Hin;
  repeat (destruct Hin as [Hin|Hin]; [discriminate Hin|]); exact Hin.

Lemma chars_app (a b : string) :
  String.list_ascii_of_string (a +:+ b)
  = String.list_ascii_of_string a ++ String.list_ascii_of_string b.
Proof. induction a as [|c a IH]; [done|]. rewrite app_cons. simpl. by rewrite IH. Qed.

(** A character of the result of [replace] is a character of the
    replacement or a character of the string other than the replaced
    one. *)
Lemma chars_replace (old : ascii) (new s : string) (c : ascii) :
  c ∈ String.list_ascii_of_string (replace old new s) →
  (c ≠ old ∧ c ∈ String.list_ascii_of_string s)
  ∨ c ∈ String.list_ascii_of_string new.
Proof.
  induction s as [|a s IH]; [by intros ?%elem_of_nil|].
  cbn [replace]. case_decide as Ha.
  - rewrite chars_app, elem_of_app. intros [?|Hc]; [by right|].
    destruct (IH Hc) as [[? ?]|?]; [left|by right]. split; [done|]. by right.
  - simpl. intros [->|Hc]%elem_of_cons.
    + left. split; [done|]. by left.
    + destruct (IH Hc) as [[? ?]|?]; [left|by right]. split; [done|]. by right.
Qed.

(** The line as the scanner cuts it: the eight replacements, in the order
    of the source. *)
#[local] Abbreviation cleaned :=
  (λ line : string,
     replace "*" " "
       (replace "." " "
          (replace "#" " "
             (replace "," " "
                (replace "!" ""
                   (replace ":" " " (replace ")" " " (replace "(" " " line)))))))).

Lemma cleaned_no_punctuation (line : string) (c : ascii) :
  c ∈ String.list_ascii_of_string (cleaned line) → c ∉ punctuation.
Proof.
  intros Hc. unfold punctuation.
  repeat (destruct (chars_replace _ _ _ _ Hc) as [[? Hc']|Hc']; clear Hc;
          rename Hc' into Hc;
          [|simpl in Hc;
            first [by apply elem_of_nil in Hc
                  |apply list_elem_of_singleton in Hc as ->; by_not_elem]]).
  rewrite !elem_of_cons, elem_of_nil. tauto.
Qed.

Section CFacts.

Context (readlines : string → option (list string))
        (strip : string → string)
        (split_whitespace : string → list string).

#[local] Abbreviation parse_c_file :=
  (Scan.parse_c_file readlines strip split_whitespace).
#[local] Abbreviation parse_c_line := (Scan.parse_c_line strip split_whitespace).
#[local] Abbreviation scan_library := (Scan.scan_library split_whitespace).

(** What the scanner keeps of its list: no repetition, and each symbol
    starts with one of the two library names and is an item of a cleaned
    line. *)
#[local] Abbreviation kept :=
  (λ symbols : list string,
     NoDup symbols
     ∧ Forall (λ x, (String.prefix "gtk" x = true ∨ String.prefix "Gtk" x = true)
                    ∧ ∃ line, x ∈ split_whitespace (cleaned line))
         symbols).

Lemma kept_items (library line : string) (items symbols : list string) :
  library = "gtk" ∨ library = "Gtk" →
  (∀ item, item ∈ items → item ∈ split_whitespace (cleaned line)) →
  kept symbols →
  kept (foldl (λ symbols item,
                 if String.prefix library item then append_new symbols item
                 else symbols)
          symbols items).
Proof.
  intros Hlib. revert symbols.
  induction items as [|item items IH]; intros symbols Hitems Hkept; [done|].
  cbn [foldl]. apply IH; [intros ? ?; apply Hitems; by right|].
  destruct (String.prefix library item) eqn:Hprefix; [|done].
  destruct Hkept as [Hnd Hall]. split; [by apply NoDup_append_new|].
  rewrite Forall_forall in Hall. rewrite Forall_forall.
  intros x [?| ->]%elem_of_append_new; [by apply Hall|]. split.
  - destruct Hlib as [->| ->]; auto.
  - exists line. apply Hitems. by left.
Qed.

Lemma kept_scan_library (library line : string) (symbols : list string) :
  library = "gtk" ∨ library = "Gtk" →
  kept symbols → kept (scan_library (line, symbols) library).2.
Proof.
  intros Hlib Hkept. unfold Scan.scan_library.
  destruct (contains line library); [|done]. cbn [snd].
  by apply (kept_items library line).
Qed.

Lemma kept_parse_c_line (symbols : list string) (line : string) :
  kept symbols → kept (parse_c_line symbols line).
Proof.
  intros Hkept. unfold Scan.parse_c_line.
  destruct (String.prefix "#if" (strip line) || String.prefix "#else" (strip line)
            || String.prefix "endif" (strip line)
            || String.prefix "#include" (strip line)
            || String.prefix "#define" (strip line)); [done|].
  cbn [foldl].
  destruct (scan_library (strip line, symbols) "gtk") as [line1 symbols1] eqn:Hfirst.
  apply (kept_scan_library "Gtk" line1 symbols1); [by right|].
  change symbols1 with (line1, symbols1).2. rewrite <-Hfirst.
  apply kept_scan_library; [by left|done].
Qed.

Lemma kept_parse_c_lines (lines symbols : list string) :
  kept symbols → kept (foldl parse_c_line symbols lines).
Proof.
  revert symbols. induction lines as [|line lines IH]; intros symbols Hkept; [done|].
  cbn [foldl]. by apply IH, kept_parse_c_line.
Qed.

(** The list [parse_c_file] returns has no repetition, and each of its
    symbols starts with [gtk] or with [Gtk]. *)
Theorem parse_c_file_symbols (filename : string) (symbols : list string) :
  parse_c_file filename = Some symbols →
  NoDup symbols
  ∧ Forall (λ x, String.prefix "gtk" x = true ∨ String.prefix "Gtk" x = true) symbols.
Proof.
  unfold Scan.parse_c_file.
  destruct (readlines filename) as [lines|]; cbn [mbind option_bind]; [|done].
  intros [= <-]. destruct (kept_parse_c_lines lines []) as [Hnd Hall].
  { split; [apply NoDup_nil_2|constructor]. }
  split; [done|]. eapply Forall_impl; [exact Hall|]. by intros x [? _].
Qed.

(** When the items [str.split] returns are made of characters of the
    string it cuts, no symbol [parse_c_file] returns contains a
    parenthesis, a colon, an exclamation mark, a comma, a hash, a period
    or an asterisk. *)
Theorem parse_c_file_no_punctuation (filename : string) (symbols : list string) :
  (∀ s item, item ∈ split_whitespace s →
             ∀ c, c ∈ String.list_ascii_of_string item →
                  c ∈ String.list_ascii_of_string s) →
  parse_c_file filename = Some symbols →
  Forall (λ x, ∀ c, c ∈ String.list_ascii_of_string x → c ∉ punctuation) symbols.
Proof.
  intros Hsplit. unfold Scan.parse_c_file.
  destruct (readlines filename) as [lines|]; cbn [mbind option_bind]; [|done].
  intros [= <-]. destruct (kept_parse_c_lines lines []) as [_ Hall].
  { split; [apply NoDup_nil_2|constructor]. }
  eapply Forall_impl; [exact Hall|]. intros x [_ (line & Hx)] c Hc.
  apply (cleaned_no_punctuation line). by apply (Hsplit _ x).
Qed.

End CFacts.

(** [String.words] cuts its items out of the string. *)
Lemma chars_rev_app (a acc : string) (c : ascii) :
  c ∈ String.list_ascii_of_string (String.rev_app a acc)
  ↔ c ∈ String.list_ascii_of_string a ∨ c ∈ String.list_ascii_of_string acc.
Proof.
  revert acc. induction a as [|x a IH]; intros acc; simpl.
  - rewrite elem_of_nil. tauto.
  - rewrite IH. simpl. rewrite !elem_of_cons. tauto.
Qed.

Lemma words_go_chars (cur : option string) (s item : string) (c : ascii) :
  item ∈ String.words_go cur s →
  c ∈ String.list_ascii_of_string item →
  c ∈ String.list_ascii_of_string s
  ∨ ∃ w, cur = Some w ∧ c ∈ String.list_ascii_of_string w.
Proof.
  revert cur. induction s as [|a s IH]; intros cur; cbn [String.words_go].
  - destruct cur as [w|]; simpl; [|by intros ?%elem_of_nil].
    intros ->%list_elem_of_singleton Hc. right. exists w. split; [done|].
    unfold String.rev in Hc. apply chars_rev_app in Hc as [?|Hc]; [done|].
    by apply elem_of_nil in Hc.
  - destruct (Ascii.is_space a).
    + intros [Hitem|Hitem]%elem_of_app Hc.
      * destruct cur as [w|]; simpl in Hitem; [|by apply elem_of_nil in Hitem].
        apply list_elem_of_singleton in Hitem as ->. right. exists w.
        split; [done|]. unfold String.rev in Hc.
        apply chars_rev_app in Hc as [?|Hc]; [done|]. by apply elem_of_nil in Hc.
      * destruct (IH None Hitem Hc) as [?|(w & [=] & _)]. left. simpl. by right.
    + intros Hitem Hc. destruct (IH _ Hitem Hc) as [?|(w & [= <-] & Hw)].
      * left. simpl. by right.
      * destruct cur as [w'|]; simpl in Hw.
        -- apply elem_of_cons in Hw as [->|Hw]; [left; simpl; by left|].
           right. by exists w'.
        -- apply elem_of_cons in Hw as [->|Hw]; [left; simpl; by left|].
           by apply elem_of_nil in Hw.
Qed.

Lemma words_chars (s item : string) (c : ascii) :
  item ∈ String.words s →
  c ∈ String.list_ascii_of_string item → c ∈ String.list_ascii_of_string s.
Proof.
  intros Hitem Hc.
  by destruct (words_go_chars None s item c Hitem Hc) as [?|(w & [=] & _)].
Qed.

(** ** The loop of [__init__] *)

Lemma known_minors_even (v : Z) : v ∈ known_minors → ∃ k, v = 2 * k.
Proof.
  unfold known_minors. intros Hv.
  repeat (apply elem_of_cons in Hv as [->|Hv];
          [match goal with |- ∃ k, ?n = _ => exists (n / 2); reflexivity end|]).
  by apply elem_of_nil in Hv.
Qed.

Section DownloadFacts.

Context (world : Type) (source_dir : string)
        (path_exists isdir : world → string → bool)
        (makedirs : world → string → option world)
        (urlretrieve : world → string → string → world * bool).

#[local] Abbreviation get_api_documents_loop :=
  (get_api_documents_loop world source_dir path_exists isdir makedirs urlretrieve).
#[local] Abbreviation init_loop :=
  (init_loop world source_dir path_exists isdir makedirs urlretrieve).
#[local] Abbreviation api_versions w :=
  (check_api_versions source_dir (path_exists w)).

(** Every path of [w] is a path of [w']. *)
#[local] Abbreviation grows w w' :=
  (∀ path, path_exists w path = true → path_exists w' path = true).

(** The documents of release 3.[v] are on disk. *)
#[local] Abbreviation complete w v :=
  (∀ filename, filename ∈ api_filenames →
               path_exists w (api_document source_dir 3 v filename) = true).

(** The working directory is absolute, as [os.getcwd()] is; a path that
    exists keeps existing through [os.makedirs] and through a download,
    and a download that returns has written its file. *)
Hypothesis source_dir_absolute : String.prefix "/" source_dir = true.
Hypothesis makedirs_keeps : ∀ w path w', makedirs w path = Some w' → grows w w'.
Hypothesis urlretrieve_writes :
  ∀ w url filename w',
    urlretrieve w url filename = (w', true) →
    path_exists w' filename = true ∧ grows w w'.

Lemma get_api_documents_loop_done (v : Z) (filenames : list string) (w w' : world) :
  v ∈ known_minors →
  (∀ filename, filename ∈ filenames → filename ∈ api_filenames) →
  get_api_documents_loop w 3 v filenames = Some (w', true) →
  grows w w'
  ∧ ∀ filename, filename ∈ filenames →
                path_exists w' (api_document source_dir 3 v filename) = true.
Proof.
  intros Hv. revert w. induction filenames as [|filename filenames IH]; intros w Hsub.
  - intros [= ->]. split; [done|]. by intros ? ?%elem_of_nil.
  - cbn [get_api_documents_loop].
    assert (∀ f, f ∈ filenames → f ∈ api_filenames) as Hsub'
      by (intros f ?; apply Hsub; by right).
    destruct (path_exists w (api_document source_dir 3 v filename)) eqn:Hthere.
    + intros Hrest. destruct (IH w Hsub' Hrest) as [Hgrows Hall].
      split; [exact Hgrows|]. intros f [->|Hf]%elem_of_cons; [|by apply Hall].
      by apply Hgrows.
    + assert (download_target source_dir 3 v filename
              = api_document source_dir 3 v filename) as Htarget.
      { apply download_target_document; [exact source_dir_absolute|exact Hv|].
        apply Hsub. by left. }
      destruct (if isdir w (download_dir source_dir 3 v) then Some w
                else makedirs w (download_dir source_dir 3 v)) as [w1|] eqn:Hdir;
        cbn [mbind option_bind]; [|intros [=]].
      assert (grows w w1) as Hgrows1.
      { destruct (isdir w (download_dir source_dir 3 v)).
        - injection Hdir as <-. done.
        - exact (makedirs_keeps w _ w1 Hdir). }
      destruct (urlretrieve w1 (download_url 3 v filename)
                  (download_target source_dir 3 v filename)) as [w2 [|]] eqn:Hget;
        [|intros [=]].
      destruct (urlretrieve_writes _ _ _ _ Hget) as [Hwritten Hgrows2].
      intros Hrest. destruct (IH w2 Hsub' Hrest) as [Hgrows Hall].
      split; [intros path ?; by apply Hgrows, Hgrows2, Hgrows1|].
      intros f [->|Hf]%elem_of_cons; [|by apply Hall].
      apply Hgrows. by rewrite <-Htarget.
Qed.

(** When no download fails and no directory creation raises, the loop of
    [get_api_documents] runs to its end. *)
Lemma get_api_documents_loop_online (v : Z) (filenames : list string) (w : world) :
  (∀ w url filename, (urlretrieve w url filename).2 = true) →
  (∀ w path, is_Some (makedirs w path)) →
  ∃ w', get_api_documents_loop w 3 v filenames = Some (w', true).
Proof.
  intros Honline Hdirs. revert w.
  induction filenames as [|filename filenames IH]; intros w; [by exists w|].
  cbn [get_api_documents_loop].
  destruct (path_exists w (api_document source_dir 3 v filename)); [apply IH|].
  assert (∃ w1, (if isdir w (download_dir source_dir 3 v) then Some w
                 else makedirs w (download_dir source_dir 3 v)) = Some w1)
    as [w1 ->].
  { destruct (isdir w (download_dir source_dir 3 v)); [by exists w|].
    destruct (Hdirs w (download_dir source_dir 3 v)) as [w1 ?]. by exists w1. }
  cbn [mbind option_bind].
  pose proof (Honline w1 (download_url 3 v filename)
                (download_target source_dir 3 v filename)) as Hok.
  destruct (urlretrieve w1 (download_url 3 v filename)
              (download_target source_dir 3 v filename)) as [w2 retrieved].
  cbn [snd] in Hok. subst retrieved. apply IH.
Qed.

(** The answer of [check_api_versions] is a release of the series, or
    3.14. *)
Lemma api_versions_range (w : world) :
  (api_versions w).1 = 3 ∧ 0 <= (api_versions w).2 <= 14.
Proof.
  destruct (check_api_versions_oldest source_dir (path_exists w))
    as (v & -> & [Hv| ->] & _); cbn [fst snd]; [|lia].
  apply known_minors_nonneg in Hv. lia.
Qed.

(** After a round that fetched the documents of 3.[v], the answer of
    [check_api_versions] is a later release. *)
Lemma api_versions_advance (w w' : world) (v : Z) :
  v ∈ known_minors →
  api_versions w = (3, v) →
  grows w w' → complete w' v →
  v + 2 <= (api_versions w').2.
Proof.
  intros Hv Hw Hgrows Hcomplete.
  pose proof (known_minors_nonneg v Hv) as Hrange.
  destruct (check_api_versions_oldest source_dir (path_exists w'))
    as (v' & -> & [Hv'| ->] & Hlacks & _); cbn [snd]; [|lia].
  destruct (Hlacks Hv') as (f & Hf & Hmissing).
  destruct (check_api_versions_oldest source_dir (path_exists w))
    as (v0 & Hw0 & _ & _ & Hbefore).
  rewrite Hw in Hw0. injection Hw0 as <-.
  destruct (decide (v' < v)) as [Hlt|Hge].
  { rewrite (Hgrows _ (Hbefore v' f Hv' Hlt Hf)) in Hmissing. discriminate Hmissing. }
  destruct (decide (v' = v)) as [->|Hne].
  { rewrite (Hcomplete f Hf) in Hmissing. discriminate Hmissing. }
  destruct (known_minors_even v Hv) as [k ->].
  destruct (known_minors_even v' Hv') as [k' ->]. lia.
Qed.

(** The loop of [__init__], from a state where [check_api_versions]
    answers 3.[m]: rounds for the releases from 3.[m] to 3.12 suffice, and
    one line is printed for each round that fetches. *)
Lemma init_loop_rounds (fuel : nat) (w : world) (printed : list string) :
  14 - (api_versions w).2 < 2 * Z.of_nat fuel →
  ∃ printed' result,
    init_loop fuel w printed = Some (printed', result)
    ∧ 2 * Z.of_nat (length printed')
      <= 2 * Z.of_nat (length printed) + (14 - (api_versions w).2)
    ∧ ((∀ w url filename, (urlretrieve w url filename).2 = true) →
       (∀ w path, is_Some (makedirs w path)) →
       ∃ w', result = Some w' ∧ ∀ v, v ∈ known_minors → complete w' v).
Proof.
  revert w printed. induction fuel as [|fuel IH]; intros w printed Hfuel.
  { pose proof (api_versions_range w). lia. }
  cbn [init_loop].
  destruct (check_api_versions_oldest source_dir (path_exists w))
    as (v & Hw & [Hv| ->] & _ & Hbefore); cycle 1.
  - rewrite Hw. cbn [snd]. destruct (decide (14 > 12)); [|lia].
    exists printed, (Some w). split; [reflexivity|]. split; [lia|].
    intros _ _. exists w. split; [reflexivity|]. intros v Hv f Hf.
    apply Hbefore; [exact Hv| |exact Hf]. apply known_minors_nonneg in Hv. lia.
  - rewrite Hw in Hfuel |- *. cbn [snd] in Hfuel |- *.
    pose proof (known_minors_nonneg v Hv) as Hrange.
    destruct (decide (v > 12)); [lia|].
    unfold get_api_documents.
    destruct (get_api_documents_loop w 3 v api_filenames) as [[w' [|]]|] eqn:Hround.
    + destruct (get_api_documents_loop_done v api_filenames w w' Hv
                  (λ _ H, H) Hround) as [Hgrows Hcomplete].
      pose proof (api_versions_advance w w' v Hv Hw Hgrows Hcomplete) as Hnext.
      destruct (IH w' (printed ++ ["Getting API documents for GTK "
                                     +:+ version_key 3 v +:+ " ..."]))
        as (printed' & result & Hloop & Hlength & Honline); [lia|].
      exists printed', result. split; [exact Hloop|].
      rewrite length_app in Hlength. cbn [length] in Hlength. split; [lia|].
      exact Honline.
    + eexists _, _. split; [reflexivity|]. rewrite length_app. cbn [length].
      split; [lia|]. intros Honline Hdirs.
      destruct (get_api_documents_loop_online v api_filenames w Honline Hdirs)
        as [w'' Hdone].
      rewrite Hdone in Hround. discriminate Hround.
    + eexists _, _. split; [reflexivity|]. rewrite length_app. cbn [length].
      split; [lia|]. intros Honline Hdirs.
      destruct (get_api_documents_loop_online v api_filenames w Honline Hdirs)
        as [w'' Hdone].
      rewrite Hdone in Hround. discriminate Hround.
Qed.

(** The [while True] loop of [__init__] ends: eight rounds always
    suffice, and [get_api_documents] is called, and prints its line, at
    most seven times. *)
Theorem init_loop_returns (fuel : nat) (w : world) :
  (8 <= fuel)%nat →
  ∃ printed result,
    init_loop fuel w [] = Some (printed, result) ∧ (length printed <= 7)%nat.
Proof.
  intros Hfuel. pose proof (api_versions_range w) as [_ Hrange].
  destruct (init_loop_rounds fuel w []) as (printed & result & Hloop & Hlength & _);
    [lia|].
  exists printed, result. split; [exact Hloop|]. cbn [length] in Hlength. lia.
Qed.

(** When no download fails and no directory creation raises, the loop of
    [__init__] leaves all twenty-one documents on disk. *)
Theorem init_loop_fetches_all (fuel : nat) (w : world) :
  (∀ w url filename, (urlretrieve w url filename).2 = true) →
  (∀ w path, is_Some (makedirs w path)) →
  (8 <= fuel)%nat →
  ∃ printed w',
    init_loop fuel w [] = Some (printed, Some w')
    ∧ ∀ v filename, v ∈ known_minors → filename ∈ api_filenames →
                    path_exists w' (api_document source_dir 3 v filename) = true.
Proof.
  intros Honline Hdirs Hfuel. pose proof (api_versions_range w) as [_ Hrange].
  destruct (init_loop_rounds fuel w [])
    as (printed & result & Hloop & _ & Hall); [lia|].
  destruct (Hall Honline Hdirs) as (w' & -> & Hcomplete).
  exists printed, w'. split; [exact Hloop|]. intros v f Hv Hf. by apply Hcomplete.
Qed.

End DownloadFacts.

(** ** The theorems on the worked listing *)

(** Closed decidable facts about the worked listing, by evaluation. *)
Ltac by_evaluation := refine (bool_decide_unpack _ _); vm_compute; exact I.
Ltac for_all_known :=
  match goal with
  | |- ∀ v, v ∈ ?l → @?P v => refine (proj1 (Forall_forall P l) _); by_evaluation
  end.

Lemma first_seen_wins_witness :
  (∃ symbols r,
      Example.get_symbols 3 = Some symbols
      ∧ symbols !! "gtk_widget_show_all" = Some r
      ∧ symbol_name r = "gtk_widget_show_all"
      ∧ minimum_gtk_version r = (3, 4)
      ∧ (∀ k r', symbols !! k = Some r' →
                 symbol_name r' = "gtk_widget_show_all" → k = "gtk_widget_show_all"))
  ∧ (∃ symbols0,
        Example.introduction_pass = Some symbols0
        ∧ symbols0 !! "gtk_widget_show_all"
          = Some (mkGtkSymbol "gtk_widget_show_all" (3, 4) (3, 12)))
  ∧ (∀ (symbols : gmap string GtkSymbol) (r : GtkSymbol) (vM vm : Z)
       (listing : list string),
        symbols !! "gtk_widget_show_all" = Some r →
        foldl (introduce vM vm) symbols listing !! "gtk_widget_show_all" = Some r).
Proof.
  apply (first_seen_wins Example.source_dir
           (Example.parse_symbol_html Example.root)
           (Example.parse_object_html Example.root) 3 "gtk_widget_show_all" 4).
  - by_evaluation.
  - by_evaluation.
  - for_all_known.
Defined.

Lemma deprecation_ends_at_oldest_witness :
  ∃ symbols r,
    Example.get_symbols 3 = Some symbols
    ∧ symbols !! "GtkTable" = Some r
    ∧ maximum_gtk_version r = (3, 4)
    ∧ r = set_maximum_gtk_version (3, 4) (mkGtkSymbol "GtkTable" (3, 0) (3, 12)).
Proof.
  apply (deprecation_ends_at_oldest Example.source_dir
           (Example.parse_symbol_html Example.root)
           (Example.parse_object_html Example.root) 3 "GtkTable" 4
           (default ∅ Example.introduction_pass)).
  - vm_compute. reflexivity.
  - vm_compute. reflexivity.
  - by_evaluation.
  - by_evaluation.
  - for_all_known.
Defined.

Lemma deprecated_only_record_witness :
  ∃ symbols,
    Example.get_symbols 3 = Some symbols
    ∧ symbols !! "gtk_old" = Some (mkGtkSymbol "gtk_old" (3, 0) (3, 6))
    ∧ (∀ k r', symbols !! k = Some r' → symbol_name r' = "gtk_old" → k = "gtk_old").
Proof.
  apply (deprecated_only_record Example.source_dir
           (Example.parse_symbol_html Example.root)
           (Example.parse_object_html Example.root) 3 "gtk_old" 6).
  - for_all_known.
  - by_evaluation.
  - by_evaluation.
  - for_all_known.
Defined.

(** C5, as the claim has it, fails: run with [--gtk_version 2.24], the
    name [gtk_old], which only deprecated listings contain (3.6 the oldest),
    gets the minimum version (2, 0), not the base version (3, 0). *)
Lemma deprecated_only_min_not_base :
  (∀ v, v ∈ known_minors → "gtk_old" ∉ Example.available_listing v)
  ∧ "gtk_old" ∈ Example.deprecated_listing 6
  ∧ (∀ v, v ∈ known_minors → "gtk_old" ∈ Example.deprecated_listing v → 6 <= v)
  ∧ ∃ symbols r,
      Example.get_symbols 2 = Some symbols
      ∧ symbols !! "gtk_old" = Some r
      ∧ minimum_gtk_version r = (2, 0)
      ∧ minimum_gtk_version r ≠ (3, 0).
Proof.
  split; [for_all_known|]. split; [by_evaluation|]. split; [for_all_known|].
  destruct (get_symbols_lookup Example.source_dir
              (Example.parse_symbol_html Example.root)
              (Example.parse_object_html Example.root) 2)
    as (symbols & Hget & Hlookup).
  exists symbols, (mkGtkSymbol "gtk_old" (2, 0) (3, 6)).
  split; [exact Hget|]. split.
  - rewrite Hlookup. vm_compute. reflexivity.
  - split; [reflexivity|discriminate].
Qed.

Lemma unknown_symbol_not_found_witness :
  ∃ symbols,
    Example.get_symbols 3 = Some symbols
    ∧ symbols !! "gtk_widget_hide" = None
    ∧ check_available_symbol symbols false "gtk_widget_hide" 3 12
      = (["Symbol [gtk_widget_hide] was not found in the API documents"], false).
Proof.
  apply (unknown_symbol_not_found Example.source_dir
           (Example.parse_symbol_html Example.root)
           (Example.parse_object_html Example.root) 3 "gtk_widget_hide" false 3 12).
  for_all_known.
Defined.

Lemma base_symbol_valid_witness :
  ∃ symbols r,
    Example.get_symbols 3 = Some symbols
    ∧ symbols !! "gtk_widget_show" = Some r
    ∧ r = mkGtkSymbol "gtk_widget_show" (3, 0) (3, 12)
    ∧ check_version r 3 6 = 0
    ∧ check_available_symbol symbols false "gtk_widget_show" 3 6 = ([], true).
Proof.
  apply (base_symbol_valid Example.source_dir
           (Example.parse_symbol_html Example.root)
           (Example.parse_object_html Example.root) 3 "gtk_widget_show" 6 false).
  - by_evaluation.
  - for_all_known.
  - by_evaluation.
Defined.

(** The same documents under [/home/user/project] and under [/srv/docs/]
    give the same database. *)
Lemma get_symbols_deterministic_witness :
  ∃ symbols,
    Example.get_symbols 3 = Some symbols
    ∧ get_symbols Example.other_dir
        (Example.parse_symbol_html Example.other_dir)
        (Example.parse_object_html Example.other_dir) 3
      = Some symbols.
Proof.
  apply (get_symbols_deterministic Example.source_dir Example.other_dir
           (Example.parse_symbol_html Example.root)
           (Example.parse_symbol_html Example.other_dir)
           (Example.parse_object_html Example.root)
           (Example.parse_object_html Example.other_dir) 3).
  for_all_known.
Defined.

(** C9, as the claim has it, fails: [gtk_early] is listed as deprecated in
    3.0 and indexed from 3.4 only, and its finished record runs from
    (3, 4) down to (3, 0). *)
Lemma range_not_ordered :
  ∃ symbols r,
    Example.get_symbols 3 = Some symbols
    ∧ symbols !! "gtk_early" = Some r
    ∧ r = mkGtkSymbol "gtk_early" (3, 4) (3, 0)
    ∧ ¬ version_le (minimum_gtk_version r) (maximum_gtk_version r).
Proof.
  destruct (get_symbols_lookup Example.source_dir
              (Example.parse_symbol_html Example.root)
              (Example.parse_object_html Example.root) 3)
    as (symbols & Hget & Hlookup).
  exists symbols, (mkGtkSymbol "gtk_early" (3, 4) (3, 0)).
  split; [exact Hget|]. split.
  - rewrite Hlookup. vm_compute. reflexivity.
  - split; [reflexivity|]. unfold version_le; simpl. lia.
Qed.

Lemma range_ordered_iff_witness :
  version_le (3, 4) (3, 10)
  ↔ (∀ vd, vd ∈ known_minors → "gtk_widget_show_all" ∈ Example.deprecated_listing vd →
       (∃ va, va ∈ known_minors
              ∧ "gtk_widget_show_all" ∈ Example.available_listing va ∧ va <= vd)
       ∨ ((∀ va, va ∈ known_minors → "gtk_widget_show_all" ∉ Example.available_listing va)
          ∧ 3 <= 3)).
Proof.
  apply (range_ordered_iff Example.source_dir
           (Example.parse_symbol_html Example.root)
           (Example.parse_object_html Example.root) 3 "gtk_widget_show_all"
           (default ∅ (Example.get_symbols 3))
           (mkGtkSymbol "gtk_widget_show_all" (3, 4) (3, 10))).
  - vm_compute. reflexivity.
  - vm_compute. reflexivity.
Defined.

(** The worked listing, evaluated. *)
Example example_records :
  (Example.get_symbols 3 ≫= (.!! "gtk_widget_show"))
    = Some (mkGtkSymbol "gtk_widget_show" (3, 0) (3, 12))
  ∧ (Example.get_symbols 3 ≫= (.!! "gtk_widget_show_all"))
    = Some (mkGtkSymbol "gtk_widget_show_all" (3, 4) (3, 10))
  ∧ (Example.get_symbols 3 ≫= (.!! "GtkTable"))
    = Some (mkGtkSymbol "GtkTable" (3, 0) (3, 4))
  ∧ (Example.get_symbols 3 ≫= (.!! "gtk_old"))
    = Some (mkGtkSymbol "gtk_old" (3, 0) (3, 6))
  ∧ (Example.get_symbols 3 ≫= (.!! "gtk_widget_hide")) = None.
Proof. repeat split; vm_compute; reflexivity. Qed.

Example example_checks :
  (symbols ← Example.get_symbols 3;
   Some (check_available_symbol symbols false "gtk_widget_show" 3 6,
         check_available_symbol symbols false "gtk_widget_show_all" 3 12,
         check_available_symbol symbols false "gtk_widget_show_all" 3 2))
  = Some (([], true),
          (["Symbol [gtk_widget_show_all] has been deprecated since GTK (3, 10)"], false),
          (["Symbol [gtk_widget_show_all] was introduced in GTK (3, 4)"], false)).
Proof. vm_compute. reflexivity. Qed.

(** ** The further theorems on the worked listing *)

Ltac earliest_known :=
  unfold earliest; split; [by_evaluation|split; [by_evaluation|for_all_known]].

Lemma deprecation_keeps_minimum_witness :
  ∃ symbols r,
    Example.get_symbols 3 = Some symbols
    ∧ symbols !! "gtk_widget_show_all" = Some r
    ∧ symbol_name r = "gtk_widget_show_all"
    ∧ minimum_gtk_version r = (3, 4)
    ∧ (unlisted Example.deprecated_listing "gtk_widget_show_all"
       → r = mkGtkSymbol "gtk_widget_show_all" (3, 4) (3, 12)).
Proof.
  apply (deprecation_keeps_minimum Example.source_dir
           (Example.parse_symbol_html Example.root)
           (Example.parse_object_html Example.root) 3 "gtk_widget_show_all"
           (default ∅ Example.introduction_pass)
           (mkGtkSymbol "gtk_widget_show_all" (3, 4) (3, 12))).
  - vm_compute. reflexivity.
  - vm_compute. reflexivity.
Defined.

Lemma too_new_report_witness :
  ∃ symbols,
    Example.get_symbols 3 = Some symbols
    ∧ check_available_symbol symbols false "gtk_widget_show_all" 3 2
      = (["Symbol [" +:+ "gtk_widget_show_all" +:+ "] was introduced in GTK "
            +:+ str_version (3, 4)], false).
Proof.
  apply (too_new_report Example.source_dir
           (Example.parse_symbol_html Example.root)
           (Example.parse_object_html Example.root) 3
           "gtk_widget_show_all" 4 false 3 2).
  - earliest_known.
  - unfold version_lt. simpl. lia.
Defined.

Lemma deprecated_report_witness :
  check_available_symbol (default ∅ (Example.get_symbols 3)) false
    "gtk_widget_show_all" 3 12
  = (["Symbol [" +:+ "gtk_widget_show_all" +:+ "] has been deprecated since GTK "
        +:+ str_version (3, 10)], false).
Proof.
  apply (deprecated_report Example.source_dir
           (Example.parse_symbol_html Example.root)
           (Example.parse_object_html Example.root) 3
           "gtk_widget_show_all" 10 false 3 12
           (default ∅ (Example.get_symbols 3))
           (mkGtkSymbol "gtk_widget_show_all" (3, 4) (3, 10))).
  - vm_compute. reflexivity.
  - vm_compute. reflexivity.
  - earliest_known.
  - unfold version_lt. simpl. lia.
  - lia.
Defined.

Lemma inverted_range_always_refused_witness :
  ∃ symbols,
    Example.get_symbols 3 = Some symbols
    ∧ (check_available_symbol symbols false "gtk_early" 3 4).2 = false.
Proof.
  apply (inverted_range_always_refused Example.source_dir
           (Example.parse_symbol_html Example.root)
           (Example.parse_object_html Example.root) 3 "gtk_early" 4 0 false 3 4).
  - earliest_known.
  - earliest_known.
  - lia.
Defined.

Lemma same_major_interval_witness :
  (check_available_symbol (default ∅ (Example.get_symbols 3)) false
     "gtk_widget_show_all" 3 6).2 = true
  ↔ ∃ r, default ∅ (Example.get_symbols 3) !! "gtk_widget_show_all" = Some r
         ∧ (minimum_gtk_version r).2 <= 6 <= (maximum_gtk_version r).2.
Proof.
  apply (same_major_interval Example.source_dir
           (Example.parse_symbol_html Example.root)
           (Example.parse_object_html Example.root) 3
           (default ∅ (Example.get_symbols 3)) "gtk_widget_show_all" false 6).
  - reflexivity.
  - vm_compute. reflexivity.
Defined.

Lemma get_symbols_listing_sets_witness :
  ∃ symbols,
    Example.get_symbols 3 = Some symbols
    ∧ get_symbols Example.source_dir
        (Example.parse_symbol_html_twice Example.root)
        (Example.parse_object_html Example.root) 3
      = Some symbols.
Proof.
  apply (get_symbols_listing_sets Example.source_dir Example.source_dir
           (Example.parse_symbol_html Example.root)
           (Example.parse_symbol_html_twice Example.root)
           (Example.parse_object_html Example.root)
           (Example.parse_object_html Example.root) 3).
  intros v Hv.
  assert (Forall
            (λ v,
               (Forall (λ x, x ∈ available_listing Example.source_dir
                                   (Example.parse_symbol_html_twice Example.root)
                                   (Example.parse_object_html Example.root) v)
                  (Example.available_listing v)
                ∧ Forall (λ x, x ∈ Example.available_listing v)
                    (available_listing Example.source_dir
                       (Example.parse_symbol_html_twice Example.root)
                       (Example.parse_object_html Example.root) v))
               ∧ (Forall (λ x, x ∈ deprecated_listing Example.source_dir
                                     (Example.parse_symbol_html_twice Example.root)
                                     (Example.parse_object_html Example.root) v)
                    (Example.deprecated_listing v)
                  ∧ Forall (λ x, x ∈ Example.deprecated_listing v)
                      (deprecated_listing Example.source_dir
                         (Example.parse_symbol_html_twice Example.root)
                         (Example.parse_object_html Example.root) v)))
            known_minors) as Hsame by by_evaluation.
  apply (proj1 (Forall_forall _ _) Hsame v) in Hv as [[? ?] [? ?]].
  split; by apply same_elements_Forall.
Defined.

(** ** The scanners on the example project *)

Example example_scan :
  Scan.get_filenames ExampleProject.walk "/home/user/project"
  = ["/home/user/project/src/main.c"; "/home/user/project/data/window.ui"]
  ∧ ExampleProject.get_symbols "/home/user/project"
    = Some ["gtk_widget_show"; "gtk_box_new"; "GtkWidget"; "GtkWindow"; "GtkBox"].
Proof. split; vm_compute; reflexivity. Qed.

Lemma scan_symbols_found_witness :
  NoDup ["gtk_widget_show"; "gtk_box_new"; "GtkWidget"; "GtkWindow"; "GtkBox"]
  ∧ (∀ x, x ∈ ["gtk_widget_show"; "gtk_box_new"; "GtkWidget"; "GtkWindow"; "GtkBox"]
          ↔ ∃ filename found,
              filename ∈ Scan.get_filenames ExampleProject.walk "/home/user/project"
              ∧ (if is_c_file filename
                 then Scan.parse_c_file ExampleProject.readlines ExampleProject.strip
                        ExampleProject.split_whitespace filename
                 else Scan.parse_glade_file ExampleProject.readlines filename)
                = Some found
              ∧ x ∈ found)
  ∧ Forall (λ filename,
              is_Some (if is_c_file filename
                       then Scan.parse_c_file ExampleProject.readlines
                              ExampleProject.strip ExampleProject.split_whitespace
                              filename
                       else Scan.parse_glade_file ExampleProject.readlines filename))
      (Scan.get_filenames ExampleProject.walk "/home/user/project").
Proof.
  apply (scan_symbols_found ExampleProject.walk ExampleProject.readlines
           ExampleProject.strip ExampleProject.split_whitespace
           "/home/user/project").
  vm_compute. reflexivity.
Defined.

Lemma parse_glade_file_symbols_witness :
  ∃ lines,
    ExampleProject.readlines "/home/user/project/data/window.ui" = Some lines
    ∧ NoDup ["GtkWindow"; "GtkBox"]
    ∧ (∀ x, x ∈ ["GtkWindow"; "GtkBox"]
            ↔ ∃ line, line ∈ lines ∧ contains line "object class" = true
                      ∧ split quote line !! 1%nat = Some x)
    ∧ Forall (λ x, contains x (String quote "") = false) ["GtkWindow"; "GtkBox"].
Proof.
  apply (parse_glade_file_symbols ExampleProject.readlines
           "/home/user/project/data/window.ui").
  vm_compute. reflexivity.
Defined.

Lemma parse_glade_file_class_name_witness :
  "GtkWindow" ∈ ["GtkWindow"; "GtkBox"].
Proof.
  apply (parse_glade_file_class_name ExampleProject.readlines
           "/home/user/project/data/window.ui"
           ["<interface>" +:+ ExampleProject.nl;
            "  <object class=" +:+ ExampleProject.quoted "GtkWindow" +:+ " id="
              +:+ ExampleProject.quoted "window" +:+ ">" +:+ ExampleProject.nl;
            "  <object class=" +:+ ExampleProject.quoted "GtkBox" +:+ " id="
              +:+ ExampleProject.quoted "box" +:+ ">" +:+ ExampleProject.nl]
           ["GtkWindow"; "GtkBox"]
           "  <object class=" "GtkWindow"
           (" id=" +:+ ExampleProject.quoted "window" +:+ ">" +:+ ExampleProject.nl)).
  - vm_compute. reflexivity.
  - vm_compute. reflexivity.
  - by_evaluation.
  - vm_compute. reflexivity.
  - vm_compute. reflexivity.
  - vm_compute. reflexivity.
Defined.

Lemma parse_c_file_symbols_witness :
  NoDup ["gtk_widget_show"; "gtk_box_new"; "GtkWidget"]
  ∧ Forall (λ x, String.prefix "gtk" x = true ∨ String.prefix "Gtk" x = true)
      ["gtk_widget_show"; "gtk_box_new"; "GtkWidget"].
Proof.
  apply (parse_c_file_symbols ExampleProject.readlines ExampleProject.strip
           ExampleProject.split_whitespace "/home/user/project/src/main.c").
  vm_compute. reflexivity.
Defined.

Lemma parse_c_file_no_punctuation_witness :
  Forall (λ x, ∀ c, c ∈ String.list_ascii_of_string x → c ∉ punctuation)
    ["gtk_widget_show"; "gtk_box_new"; "GtkWidget"].
Proof.
  apply (parse_c_file_no_punctuation ExampleProject.readlines ExampleProject.strip
           ExampleProject.split_whitespace "/home/user/project/src/main.c").
  - intros s item Hitem c Hc. exact (words_chars s item c Hitem Hc).
  - vm_compute. reflexivity.
Defined.

(** ** The loop of [__init__] on the example file system *)

Lemma example_makedirs_keeps (w : ExampleDownload.world) (path : string)
    (w' : ExampleDownload.world) :
  ExampleDownload.makedirs w path = Some w' →
  ∀ p, ExampleDownload.path_exists w p = true → ExampleDownload.path_exists w' p = true.
Proof.
  unfold ExampleDownload.makedirs, ExampleDownload.path_exists.
  intros [= <-] p Hp%bool_decide_eq_true. apply bool_decide_eq_true. by right.
Qed.

Lemma example_urlretrieve_writes (offline : option string) (w : ExampleDownload.world)
    (url filename : string) (w' : ExampleDownload.world) :
  ExampleDownload.urlretrieve offline w url filename = (w', true) →
  ExampleDownload.path_exists w' filename = true
  ∧ ∀ p, ExampleDownload.path_exists w p = true → ExampleDownload.path_exists w' p = true.
Proof.
  unfold ExampleDownload.urlretrieve, ExampleDownload.path_exists.
  intros Hget.
  assert (w' = filename :: w) as ->.
  { destruct offline as [release|]; [destruct (contains url release)|];
      by injection Hget as <-. }
  split; [apply bool_decide_eq_true; by left|].
  intros p Hp%bool_decide_eq_true. apply bool_decide_eq_true. by right.
Qed.

(** With the documents of 3.0 on disk and the server silent for 3.8, the
    loop fetches for 3.2, 3.4 and 3.6 and stops at 3.8. *)
Example example_init_loop :
  fst <$> ExampleDownload.init_loop (Some "/3.8/") 8 ExampleDownload.cached []
  = Some ["Getting API documents for GTK 3.2 ...";
          "Getting API documents for GTK 3.4 ...";
          "Getting API documents for GTK 3.6 ...";
          "Getting API documents for GTK 3.8 ..."].
Proof. vm_compute. reflexivity. Qed.

Lemma init_loop_returns_witness :
  ∃ printed result,
    ExampleDownload.init_loop (Some "/3.8/") 8 ExampleDownload.cached []
    = Some (printed, result)
    ∧ (length printed <= 7)%nat.
Proof.
  apply (init_loop_returns ExampleDownload.world ExampleDownload.source_dir
           ExampleDownload.path_exists ExampleDownload.isdir
           ExampleDownload.makedirs (ExampleDownload.urlretrieve (Some "/3.8/"))).
  - reflexivity.
  - exact example_makedirs_keeps.
  - exact (example_urlretrieve_writes (Some "/3.8/")).
  - lia.
Defined.

Lemma init_loop_fetches_all_witness :
  ∃ printed w',
    ExampleDownload.init_loop None 8 ExampleDownload.cached [] = Some (printed, Some w')
    ∧ ∀ v filename, v ∈ known_minors → filename ∈ api_filenames →
                    ExampleDownload.path_exists w'
                      (api_document ExampleDownload.source_dir 3 v filename)
                    = true.
Proof.
  apply (init_loop_fetches_all ExampleDownload.world ExampleDownload.source_dir
           ExampleDownload.path_exists ExampleDownload.isdir
           ExampleDownload.makedirs (ExampleDownload.urlretrieve None)).
  - reflexivity.
  - exact example_makedirs_keeps.
  - exact (example_urlretrieve_writes None).
  - reflexivity.
  - intros w path. by exists (path :: w).
  - lia.
Defined.
